(** * jsongoparser: the value model of [ast.go]

    A shallow embedding of the JSON value nodes (Object, Array,
    StringLiteral, NumberLiteral, Boolean, Null), of the number classifier
    [NewNumberLiteral] and of the two accessors every node exposes
    ([TokenLiteral] and [String]), followed by the properties the
    specification states about them.

    [ast.go] calls three functions of the Go standard library:
    [strconv.ParseInt], [strconv.ParseFloat] and [fmt.Sprintf].  They are
    modelled in the modules [strconv] and [fmt] below, after the Go sources
    (ParseInt, the scanner of ParseFloat) and after their documented
    contract where the Go code is an optimised algorithm (the rounding of
    ParseFloat and of the [%f] verb).

    Data representation:
    - a Go [string] is a sequence of bytes: [string], whose characters are
      the bytes;
    - [int64] and [uint64] are [Z], with the wrap-around of the unsigned
      arithmetic written out;
    - [float64] is [spec_float] (IEEE 754 binary64: precision 53, exponent
      bound 1024);
    - [map[string]Value] is [gmap string Value]; the order in which a Go
      [range] visits it is not part of the map and appears as a
      permutation chosen at every loop. *)

From Stdlib Require Import ZArith Ascii String List Bool Lia.
From Stdlib Require Import DecimalString DecimalPos DecimalN.
From Stdlib Require Import Floats.SpecFloat.
From stdpp Require Import base gmap strings list.

Local Open Scope Z_scope.

(** ** Bytes *)

Definition byte_code (c : ascii) : Z := Z.of_N (N_of_ascii c).

(** [lower(c)] of strconv: [c | ('x' - 'X')]. *)
Definition lower (c : ascii) : Z := Z.lor (byte_code c) 32.

Definition is_digit (c : ascii) : bool :=
  (byte_code "0" <=? byte_code c) && (byte_code c <=? byte_code "9").

Definition is_lower_letter (c : ascii) : bool :=
  (byte_code "a" <=? lower c) && (lower c <=? byte_code "z").

Definition digit_val (c : ascii) : Z := byte_code c - byte_code "0".

(** ** The part of package strconv used by ast.go *)

Module strconv.

(** The [Err] field of a [*NumError]. *)
Inductive NumError := ErrSyntax | ErrRange.

(** A Go [error] result: [None] is [nil]. *)
Definition error := option NumError.

Definition maxUint64 : Z := 2 ^ 64 - 1.

(** [ParseInt] and [ParseUint] are used with [base = 10] and
    [bitSize = 64] only; the two arguments are kept as these constants. *)
Definition base : Z := 10.
Definition bitSize : Z := 64.

(** The loop of [ParseUint] over the bytes of [s], with [n] the
    accumulator.  An error returns at once, whatever follows. *)
Fixpoint ParseUint_loop (s : string) (n : Z) : Z * error :=
  let cutoff := maxUint64 / base + 1 in
  let maxVal := 2 ^ bitSize - 1 in
  match s with
  | EmptyString => (n, None)
  | String c rest =>
      let digit :=
        if is_digit c then Some (digit_val c)
        else if is_lower_letter c then Some (lower c - byte_code "a" + 10)
        else None in
      match digit with
      | None => (0, Some ErrSyntax)
      | Some d =>
          if d >=? base then (0, Some ErrSyntax)
          else if n >=? cutoff then (maxVal, Some ErrRange)
          else
            let n' := (n * base) mod 2 ^ 64 in
            let n1 := (n' + d) mod 2 ^ 64 in
            if (n1 <? n') || (n1 >? maxVal) then (maxVal, Some ErrRange)
            else ParseUint_loop rest n1
      end
  end.

(** [strconv.ParseUint(s, 10, 64)]. *)
Definition ParseUint (s : string) : Z * error :=
  match s with
  | EmptyString => (0, Some ErrSyntax)
  | _ => ParseUint_loop s 0
  end.

(** [strconv.ParseInt(s, 10, 64)]: an optional sign, then [ParseUint],
    then the range check against [1 << 63]. *)
Definition ParseInt (s : string) : Z * error :=
  match s with
  | EmptyString => (0, Some ErrSyntax)
  | String c0 rest =>
      let neg := Ascii.eqb c0 "-" in
      let s1 := if Ascii.eqb c0 "+" || neg then rest else s in
      let '(un, err) := ParseUint s1 in
      match err with
      | Some ErrSyntax => (0, err)
      | _ =>
          let cutoff := 2 ^ (bitSize - 1) in
          if negb neg && (un >=? cutoff) then (cutoff - 1, Some ErrRange)
          else if neg && (un >? cutoff) then (- cutoff, Some ErrRange)
          else (if neg then - un else un, None)
      end
  end.

(** *** ParseFloat *)

(** [float64]: IEEE 754 binary64. *)
Definition float64 : Type := spec_float.
Definition prec : Z := 53.
Definition emax : Z := 1024.

(** [commonPrefixLenIgnoreCase(s, prefix)]; [prefix] is lower case. *)
Fixpoint commonPrefixLenIgnoreCase (s prefix : string) : Z :=
  match s, prefix with
  | String c s', String p prefix' =>
      let c' := if (byte_code "A" <=? byte_code c) && (byte_code c <=? byte_code "Z")
                then byte_code c + (byte_code "a" - byte_code "A")
                else byte_code c in
      if c' =? byte_code p then 1 + commonPrefixLenIgnoreCase s' prefix' else 0
  | _, _ => 0
  end.

(** The [case 'i', 'I'] body of [special], which the signed case falls
    through to: [s] is the string after the sign, [nsign] the length of
    the sign. *)
Definition special_inf (s : string) (sign : bool) (nsign : Z)
  : option (float64 * Z) :=
  let n := commonPrefixLenIgnoreCase s "infinity" in
  let n := if (3 <? n) && (n <? 8) then 3 else n in
  if (n =? 3) || (n =? 8) then Some (S754_infinity sign, nsign + n) else None.

(** [special(s)]: the value and the length of a leading, possibly signed,
    "inf", "infinity" or "nan", the case of the letters ignored. *)
Definition special (s : string) : option (float64 * Z) :=
  match s with
  | EmptyString => None
  | String c rest =>
      if Ascii.eqb c "+" then special_inf rest false 1
      else if Ascii.eqb c "-" then special_inf rest true 1
      else if Ascii.eqb c "i" || Ascii.eqb c "I" then special_inf s false 0
      else if Ascii.eqb c "n" || Ascii.eqb c "N" then
        if commonPrefixLenIgnoreCase s "nan" =? 3 then Some (S754_nan, 3)
        else None
      else None
  end.

(** The local variables of the digit loop of [readFloat].  [mant_all]
    is not a variable of [readFloat]: it collects every significant
    digit, also those past [maxMantDigits], which the slow path of
    [atof64] reads again from the string ([decimal.set]). *)
Record digits_state := {
  underscores : bool;
  sawdot : bool;
  sawdigits : bool;
  nd : Z;
  ndMant : Z;
  dp : Z;
  mantissa : Z;
  trunc : bool;
  mant_all : Z
}.

Definition digits_init : digits_state :=
  {| underscores := false; sawdot := false; sawdigits := false;
     nd := 0; ndMant := 0; dp := 0; mantissa := 0; trunc := false;
     mant_all := 0 |}.

(** One more significant digit [d] of base [b] (10 or 16).  Past
    [maxMantDigits] the digit is dropped, and [trunc] is set unless it is
    a zero. *)
Definition push_digit (b maxMantDigits d : Z) (st : digits_state)
  : digits_state :=
  {| underscores := underscores st; sawdot := sawdot st; sawdigits := true;
     nd := nd st + 1;
     ndMant := if ndMant st <? maxMantDigits then ndMant st + 1 else ndMant st;
     dp := dp st;
     mantissa := if ndMant st <? maxMantDigits then mantissa st * b + d
                 else mantissa st;
     trunc := if ndMant st <? maxMantDigits then trunc st
              else if d =? 0 then trunc st else true;
     mant_all := mant_all st * b + d |}.

(** The digit loop of [readFloat]: returns the string from the byte that
    ended the loop, the number of bytes read, and the variables. *)
Fixpoint readFloat_digits (hex : bool) (s : string) (i : Z)
  (st : digits_state) : string * Z * digits_state :=
  let b := if hex then 16 else 10 in
  let maxMantDigits := if hex then 16 else 19 in
  match s with
  | EmptyString => (s, i, st)
  | String c rest =>
      if Ascii.eqb c "_" then
        readFloat_digits hex rest (i + 1)
          {| underscores := true; sawdot := sawdot st;
             sawdigits := sawdigits st; nd := nd st; ndMant := ndMant st;
             dp := dp st; mantissa := mantissa st; trunc := trunc st;
             mant_all := mant_all st |}
      else if Ascii.eqb c "." then
        if sawdot st then (s, i, st)
        else
          readFloat_digits hex rest (i + 1)
            {| underscores := underscores st; sawdot := true;
               sawdigits := sawdigits st; nd := nd st; ndMant := ndMant st;
               dp := nd st; mantissa := mantissa st; trunc := trunc st;
               mant_all := mant_all st |}
      else if is_digit c then
        if Ascii.eqb c "0" && (nd st =? 0) then
          readFloat_digits hex rest (i + 1)
            {| underscores := underscores st; sawdot := sawdot st;
               sawdigits := true; nd := nd st; ndMant := ndMant st;
               dp := dp st - 1; mantissa := mantissa st; trunc := trunc st;
               mant_all := mant_all st |}
        else
          readFloat_digits hex rest (i + 1)
            (push_digit b maxMantDigits (digit_val c) st)
      else if hex && (byte_code "a" <=? lower c) && (lower c <=? byte_code "f") then
        readFloat_digits hex rest (i + 1)
          (push_digit b maxMantDigits (lower c - byte_code "a" + 10) st)
      else (s, i, st)
  end.

(** The loop over the digits of the exponent; [e] stops growing at
    10000. *)
Fixpoint readFloat_exp_digits (s : string) (i e : Z) (us : bool)
  : string * Z * Z * bool :=
  match s with
  | EmptyString => (s, i, e, us)
  | String c rest =>
      if Ascii.eqb c "_" then readFloat_exp_digits rest (i + 1) e true
      else if is_digit c then
        readFloat_exp_digits rest (i + 1)
          (if e <? 10000 then e * 10 + digit_val c else e) us
      else (s, i, e, us)
  end.

(** The optional exponent of [readFloat], from the byte [s] starts with:
    [None] is the failing return; otherwise the rest of the string, the
    index, the signed exponent and the underscore flag. *)
Definition readFloat_exp (hex : bool) (s : string) (i : Z) (us : bool)
  : option (string * Z * Z * bool) :=
  let expChar := if hex then byte_code "p" else byte_code "e" in
  match s with
  | String c rest =>
      if lower c =? expChar then
        match rest with
        | EmptyString => None
        | String c1 rest1 =>
            let esign := if Ascii.eqb c1 "-" then -1 else 1 in
            let after_sign :=
              if Ascii.eqb c1 "+" || Ascii.eqb c1 "-" then rest1 else rest in
            let i1 :=
              if Ascii.eqb c1 "+" || Ascii.eqb c1 "-" then i + 2 else i + 1 in
            match after_sign with
            | String c2 _ =>
                if is_digit c2 then
                  let '(r, i2, e, us') :=
                    readFloat_exp_digits after_sign i1 0 us in
                  Some (r, i2, e * esign, us')
                else None
            | EmptyString => None
            end
        end
      else if hex then None else Some (s, i, 0, us)
  | EmptyString => if hex then None else Some (s, i, 0, us)
  end.

(** [underscoreOK(s)]: underscores only between digits, or between a base
    prefix and a digit.  [saw] is ["^"], ["0"], ["_"] or ["!"]. *)
Fixpoint underscoreOK_loop (hex : bool) (s : string) (saw : ascii) : bool :=
  match s with
  | EmptyString => negb (Ascii.eqb saw "_")
  | String c rest =>
      if is_digit c
         || (hex && (byte_code "a" <=? lower c) && (lower c <=? byte_code "f"))
      then underscoreOK_loop hex rest "0"
      else if Ascii.eqb c "_" then
        if negb (Ascii.eqb saw "0") then false
        else underscoreOK_loop hex rest "_"
      else if Ascii.eqb saw "_" then false
      else underscoreOK_loop hex rest "!"
  end.

Definition underscoreOK (s : string) : bool :=
  let s :=
    match s with
    | String c rest => if Ascii.eqb c "-" || Ascii.eqb c "+" then rest else s
    | EmptyString => s
    end in
  match s with
  | String c0 (String c1 rest) =>
      if Ascii.eqb c0 "0"
         && ((lower c1 =? byte_code "b") || (lower c1 =? byte_code "o")
             || (lower c1 =? byte_code "x"))
      then underscoreOK_loop (lower c1 =? byte_code "x") rest "0"
      else underscoreOK_loop false s "^"
  | _ => underscoreOK_loop false s "^"
  end.

(** The results of [readFloat]: [mantissa], [exp], [neg], [trunc], [hex]
    and the number [i] of bytes read; a failing return ([ok = false]) is
    [None].  [rf_digits] and [rf_exp10] are the decimal seen in full,
    [rf_digits * 10 ^ rf_exp10] (see [mant_all]). *)
Record readFloat_result := {
  rf_mantissa : Z;
  rf_exp : Z;
  rf_neg : bool;
  rf_trunc : bool;
  rf_hex : bool;
  rf_i : Z;
  rf_digits : Z;
  rf_exp10 : Z
}.

Definition readFloat (s : string) : option readFloat_result :=
  match s with
  | EmptyString => None
  | String c0 rest0 =>
      let neg := Ascii.eqb c0 "-" in
      let signed := Ascii.eqb c0 "+" || Ascii.eqb c0 "-" in
      let s1 := if signed then rest0 else s in
      let i1 := if signed then 1 else 0 in
      let hex :=
        match s1 with
        | String d0 (String d1 (String _ _)) =>
            Ascii.eqb d0 "0" && (lower d1 =? byte_code "x")
        | _ => false
        end in
      let s2 :=
        match s1 with
        | String _ (String _ after) => if hex then after else s1
        | _ => s1
        end in
      let i2 := if hex then i1 + 2 else i1 in
      let '(s3, i3, st) := readFloat_digits hex s2 i2 digits_init in
      if negb (sawdigits st) then None
      else
        let dp1 := if sawdot st then dp st else nd st in
        let dp2 := if hex then dp1 * 4 else dp1 in
        let ndMant2 := if hex then ndMant st * 4 else ndMant st in
        match readFloat_exp hex s3 i3 (underscores st) with
        | None => None
        | Some (_, i4, e, us) =>
            let dp3 := dp2 + e in
            if us && negb (underscoreOK (substring 0 (Z.to_nat i4) s)) then None
            else
              Some {| rf_mantissa := mantissa st;
                      rf_exp := if mantissa st =? 0 then 0 else dp3 - ndMant2;
                      rf_neg := neg; rf_trunc := trunc st; rf_hex := hex;
                      rf_i := i4;
                      rf_digits := mant_all st;
                      rf_exp10 := dp1 + e - nd st |}
        end
  end.

(** The value of [atofHex]: [mantissa * 2 ^ exp], with more bits below
    when [trunc], rounded to the nearest float64, ties to even, denormals
    included.  The overflow to an infinity is the range error. *)
Definition atofHex (mantissa exp : Z) (neg trunc : bool) : float64 :=
  match mantissa with
  | Zpos m =>
      if trunc then binary_round_aux prec emax neg mantissa exp (loc_Inexact Lt)
      else binary_round prec emax neg m exp
  | _ => S754_zero neg
  end.

(** The value of the decimal paths of [atof64] (exact conversion,
    Eisel-Lemire, multiprecision [decimal]), by the contract of
    ParseFloat: the float64 nearest to [digits * 10 ^ exp10], ties to
    even.  The bound of 800 digits of the [decimal] buffer is not
    modelled. *)
Definition atof64_decimal (digits exp10 : Z) (neg : bool) : float64 :=
  match digits with
  | Zpos m =>
      if 0 <=? exp10 then
        binary_normalize prec emax
          (if neg then - (digits * 10 ^ exp10) else digits * 10 ^ exp10) 0 neg
      else
        let '(q, e, loc) :=
          SFdiv_core_binary prec emax digits 0 (10 ^ (- exp10)) 0 in
        binary_round_aux prec emax neg q e loc
  | _ => S754_zero neg
  end.

Definition is_infinity (f : float64) : bool :=
  match f with S754_infinity _ => true | _ => false end.

(** [atof64(s)]: the value, the number of bytes used, the error. *)
Definition atof64 (s : string) : float64 * Z * error :=
  match special s with
  | Some (val, n) => (val, n, None)
  | None =>
      match readFloat s with
      | None => (S754_zero false, 0, Some ErrSyntax)
      | Some r =>
          let f :=
            if rf_hex r
            then atofHex (rf_mantissa r) (rf_exp r) (rf_neg r) (rf_trunc r)
            else atof64_decimal (rf_digits r) (rf_exp10 r) (rf_neg r) in
          (f, rf_i r, if is_infinity f then Some ErrRange else None)
      end
  end.

(** [strconv.ParseFloat(s, 64)]: the whole of [s] must have been used. *)
Definition ParseFloat (s : string) : float64 * error :=
  let '(f, n, err) := atof64 s in
  if negb (n =? Z.of_nat (String.length s))
     && match err with Some ErrSyntax => false | _ => true end
  then (S754_zero false, Some ErrSyntax)
  else (f, err).

End strconv.

(** ** The two verbs of fmt.Sprintf used by ast.go *)

Module fmt.

(** The decimal digits of a natural number. *)
Definition decimal (n : Z) : string :=
  NilZero.string_of_uint (N.to_uint (Z.to_N n)).

(** [fmt.Sprintf("%d", i)]. *)
Definition Sprintf_d (i : Z) : string :=
  if i <? 0 then "-" +:+ decimal (- i) else decimal i.

(** [s], with zeros on the left up to the width [w]. *)
Definition pad_zeros (w : nat) (s : string) : string :=
  string_of_list_ascii (repeat "0"%char (w - String.length s)) +:+ s.

(** [m * 2 ^ e * 10 ^ 6] rounded to the nearest integer, ties to even:
    the value of a finite float in units of the sixth decimal. *)
Definition round_micro (m : positive) (e : Z) : Z :=
  if 0 <=? e then Zpos m * 2 ^ e * 10 ^ 6
  else
    let num := Zpos m * 10 ^ 6 in
    let den := 2 ^ (- e) in
    let q := num / den in
    let r := num mod den in
    if 2 * r <? den then q
    else if den <? 2 * r then q + 1
    else if Z.even q then q else q + 1.

(** [fmt.Sprintf("%f", f)]: six digits after the point, the sign of a
    negative number kept also when all the digits are zero. *)
Definition Sprintf_f (f : strconv.float64) : string :=
  match f with
  | S754_nan => "NaN"
  | S754_infinity false => "+Inf"
  | S754_infinity true => "-Inf"
  | S754_zero s => (if s then "-" else "") +:+ "0.000000"
  | S754_finite s m e =>
      let n := round_micro m e in
      (if s then "-" else "") +:+ decimal (n / 10 ^ 6) +:+ "."
        +:+ pad_zeros 6 (decimal (n mod 10 ^ 6))
  end.

End fmt.

(** ** Tokens *)

(** Modelled from the spec: the kind of a token, whose declaration is not
    in ast.go.  The kinds are the lexical categories the specification
    enumerates: brace, bracket, colon, comma, string, number, true, false,
    null, end of input, illegal. *)
Inductive TokenKind :=
| LBRACE | RBRACE | LBRACKET | RBRACKET | COLON | COMMA
| STRING | NUMBER | TRUE | FALSE | NULL | EOF | ILLEGAL.

(** Modelled from the spec: the declaration of [Token] is not in ast.go,
    which reads the field [Literal] only.  The specification gives a token
    a kind, the literal text and a source position (here a byte offset). *)
Record Token := {
  Kind : TokenKind;
  Literal : string;
  Position : Z
}.

(** ** The value nodes *)

(** [StringLiteral]: the string token and the string value. *)
Record StringLiteral := {
  StringLiteral_Token : Token;
  StringLiteral_Value : string
}.

(** [NumberLiteral]: the number token, the literal text, the float and
    the integer value, and the two flags. *)
Record NumberLiteral := {
  NumberLiteral_Token : Token;
  NumberLiteral_Value : string;
  Float : strconv.float64;
  Int : Z;
  IsInt : bool;
  IsValid : bool
}.

(** [Boolean]: the boolean token and the value. *)
Record Boolean := {
  Boolean_Token : Token;
  Boolean_Value : bool
}.

(** [Null]: the null token. *)
Record Null := { Null_Token : Token }.

(** [Value] is the interface the six node types implement; a value of the
    interface is one of the nodes.  [Object] holds its pairs in a map from
    keys to values, [Array] its elements in a slice.  Nodes are reached
    through non-nil pointers, and the values kept in a map or in a slice
    are nodes.  The marker method [valueNode] of every node type, which
    does nothing, is the membership in [Value]. *)
#[warnings="-register-all"]
Inductive Value :=
| ValObject (o : Object)
| ValArray (a : Array)
| ValString (s : StringLiteral)
| ValNumber (n : NumberLiteral)
| ValBoolean (b : Boolean)
| ValNull (n : Null)
with Object :=
| Build_Object (Object_Token : Token) (Pairs : gmap string Value)
with Array :=
| Build_Array (Array_Token : Token) (Elements : list Value).

Definition Object_Token (o : Object) : Token :=
  let 'Build_Object t _ := o in t.
Definition Pairs (o : Object) : gmap string Value :=
  let 'Build_Object _ m := o in m.
Definition Array_Token (a : Array) : Token :=
  let 'Build_Array t _ := a in t.
Definition Elements (a : Array) : list Value :=
  let 'Build_Array _ l := a in l.

(** *** NewNumberLiteral *)

(** [float64(i)] for an [int64]: the nearest float64, ties to even. *)
Definition float64_of_int64 (i : Z) : strconv.float64 :=
  binary_normalize strconv.prec strconv.emax i 0 false.

(** The composite literal [&NumberLiteral{Token: token, Value:
    token.Literal}]: the other fields hold their zero values. *)
Definition NumberLiteral_zero (token : Token) : NumberLiteral :=
  {| NumberLiteral_Token := token;
     NumberLiteral_Value := Literal token;
     Float := S754_zero false;
     Int := 0;
     IsInt := false;
     IsValid := false |}.

Definition NewNumberLiteral (token : Token) : NumberLiteral :=
  let n := NumberLiteral_zero token in
  match strconv.ParseInt (Literal token) with
  | (i, None) =>
      {| NumberLiteral_Token := NumberLiteral_Token n;
         NumberLiteral_Value := NumberLiteral_Value n;
         Float := float64_of_int64 i;
         Int := i;
         IsInt := true;
         IsValid := true |}
  | (_, Some _) =>
      match strconv.ParseFloat (Literal token) with
      | (f, None) =>
          {| NumberLiteral_Token := NumberLiteral_Token n;
             NumberLiteral_Value := NumberLiteral_Value n;
             Float := f;
             Int := Int n;
             IsInt := false;
             IsValid := true |}
      | (_, Some _) =>
          {| NumberLiteral_Token := NumberLiteral_Token n;
             NumberLiteral_Value := NumberLiteral_Value n;
             Float := Float n;
             Int := Int n;
             IsInt := IsInt n;
             IsValid := false |}
      end
  end.

Definition IsValidNumber (n : NumberLiteral) : bool := IsValid n.

(** *** TokenLiteral *)

Definition Object_TokenLiteral (o : Object) : string := Literal (Object_Token o).
Definition Array_TokenLiteral (a : Array) : string := Literal (Array_Token a).
Definition StringLiteral_TokenLiteral (s : StringLiteral) : string :=
  Literal (StringLiteral_Token s).
Definition NumberLiteral_TokenLiteral (n : NumberLiteral) : string :=
  Literal (NumberLiteral_Token n).
Definition Boolean_TokenLiteral (b : Boolean) : string := Literal (Boolean_Token b).
Definition Null_TokenLiteral (n : Null) : string := Literal (Null_Token n).

(** The method call [v.TokenLiteral()] on the interface. *)
Definition TokenLiteral (v : Value) : string :=
  match v with
  | ValObject o => Object_TokenLiteral o
  | ValArray a => Array_TokenLiteral a
  | ValString s => StringLiteral_TokenLiteral s
  | ValNumber n => NumberLiteral_TokenLiteral n
  | ValBoolean b => Boolean_TokenLiteral b
  | ValNull n => Null_TokenLiteral n
  end.

(** The token recorded in a node. *)
Definition Value_Token (v : Value) : Token :=
  match v with
  | ValObject o => Object_Token o
  | ValArray a => Array_Token a
  | ValString s => StringLiteral_Token s
  | ValNumber n => NumberLiteral_Token n
  | ValBoolean b => Boolean_Token b
  | ValNull n => Null_Token n
  end.

(** *** String *)

Definition Array_String (a : Array) : string := "[]".
Definition StringLiteral_String (s : StringLiteral) : string :=
  StringLiteral_Value s.
Definition NumberLiteral_String (n : NumberLiteral) : string :=
  if IsInt n then fmt.Sprintf_d (Int n) else fmt.Sprintf_f (Float n).
Definition Boolean_String (b : Boolean) : string := Literal (Boolean_Token b).
Definition Null_String (n : Null) : string := "null".

(** The body of the [range] loop of [Object.String], run over the pairs
    in the order the loop visits them, each value already rendered by its
    own [String]: [b] is the builder, [i] the counter. *)
Fixpoint Object_String_loop (visited : list (string * string)) (i : Z)
  (b : string) : string :=
  match visited with
  | [] => b
  | (k, vs) :: rest =>
      let b := if 0 <? i then b +:+ ", " else b in
      let b := b +:+ k in
      let b := b +:+ ": " in
      let b := b +:+ vs in
      Object_String_loop rest (i + 1) b
  end.

(** [Object.String] once the order of the iteration is known. *)
Definition Object_String_in_order (visited : list (string * string)) : string :=
  Object_String_loop visited 0 "{" +:+ "}".

(** [Object.String] and the method call [v.String()] on the interface.
    A Go [range] over a map visits every entry once, in an order that is
    not specified and may change from one loop to the next: the loop of
    [Object.String] runs over some permutation [visited] of the entries.
    The result is therefore a relation between the node and the string
    returned; for the five other nodes it is the function above. *)
Inductive Value_String : Value -> string -> Prop :=
| String_ValObject o s :
    Object_String o s -> Value_String (ValObject o) s
| String_ValArray a : Value_String (ValArray a) (Array_String a)
| String_ValString s : Value_String (ValString s) (StringLiteral_String s)
| String_ValNumber n : Value_String (ValNumber n) (NumberLiteral_String n)
| String_ValBoolean b : Value_String (ValBoolean b) (Boolean_String b)
| String_ValNull n : Value_String (ValNull n) (Null_String n)
with Object_String : Object -> string -> Prop :=
| String_Object o (visited : list (string * Value)) (rendered : list string) :
    visited ≡ₚ map_to_list (Pairs o) ->
    Forall2 (fun kv s => Value_String kv.2 s) visited rendered ->
    Object_String o (Object_String_in_order (zip (visited.*1) rendered)).

(** ** The specification's reading of an integer literal *)

(** The specification calls a literal an integer when it "parses cleanly
    as a base-10 signed 64-bit integer with no fractional or exponent
    part".  The definitions below follow these words, not the code of
    [strconv.ParseInt]: an optional sign, then one or more decimal
    digits and nothing else, denoting a value of the range of [int64]. *)

Fixpoint all_digits (s : string) : bool :=
  match s with
  | EmptyString => true
  | String c rest => is_digit c && all_digits rest
  end.

(** The number the digits [s] denote after the digits of [n]. *)
Fixpoint digits_value (s : string) (n : Z) : Z :=
  match s with
  | EmptyString => n
  | String c rest => digits_value rest (n * 10 + digit_val c)
  end.

Definition int64_min : Z := - 2 ^ 63.
Definition int64_max : Z := 2 ^ 63 - 1.

Definition split_sign (s : string) : bool * string :=
  match s with
  | String c rest =>
      if Ascii.eqb c "-" then (true, rest)
      else if Ascii.eqb c "+" then (false, rest)
      else (false, s)
  | EmptyString => (false, s)
  end.

Definition strict_base10_int64 (s : string) : option Z :=
  let '(neg, ds) := split_sign s in
  match ds with
  | EmptyString => None
  | _ =>
      if all_digits ds then
        let v := if neg then - digits_value ds 0 else digits_value ds 0 in
        if (int64_min <=? v) && (v <=? int64_max) then Some v else None
      else None
  end.

(** A literal has a fractional part or an exponent when a point or an
    exponent letter occurs in it. *)
Fixpoint has_fraction_or_exponent (s : string) : bool :=
  match s with
  | EmptyString => false
  | String c rest =>
      Ascii.eqb c "." || Ascii.eqb c "e" || Ascii.eqb c "E"
      || has_fraction_or_exponent rest
  end.

(** The number a float64 stands for is the integer [z]. *)
Definition float64_is_integer (f : strconv.float64) (z : Z) : bool :=
  match f with
  | S754_zero _ => z =? 0
  | S754_finite s m e =>
      if 0 <=? e then cond_Zopp s (Zpos m * 2 ^ e) =? z
      else cond_Zopp s (Zpos m) =? z * 2 ^ (- e)
  | _ => false
  end.

(** A number token with the literal [lit]. *)
Definition number_token (lit : string) : Token :=
  {| Kind := NUMBER; Literal := lit; Position := 0 |}.

(** The pairs of an object as [Object.String] writes them between the
    braces: [key: value], separated by [", "]. *)
Fixpoint join_pairs (l : list (string * string)) : string :=
  match l with
  | [] => ""
  | (k, vs) :: rest =>
      k +:+ ": " +:+ vs
        +:+ match rest with [] => "" | _ => ", " +:+ join_pairs rest end
  end.

(** The number of nodes of a value, the measure for inductions over the
    nested values of objects and arrays. *)
Fixpoint Value_size (v : Value) : nat :=
  match v with
  | ValObject o => Object_size o
  | ValArray a => Array_size a
  | _ => 1
  end
with Object_size (o : Object) : nat :=
  match o with
  | Build_Object _ m =>
      S (map_fold (fun _ v acc => (Value_size v + acc)%nat) 0%nat m)
  end
with Array_size (a : Array) : nat :=
  match a with
  | Build_Array _ l => S (list_sum (map Value_size l))
  end.

(** A float64 that is a number: a zero or a finite float, not an
    infinity and not a NaN. *)
Definition is_finite_float (f : strconv.float64) : bool :=
  match f with
  | S754_zero _ | S754_finite _ _ _ => true
  | S754_infinity _ | S754_nan => false
  end.

(** The values whose [String] cannot depend on the order of a map
    iteration: in the value, and in the values its objects hold, no object
    has more than one pair.  (What an array holds does not matter: its
    [String] does not look at the elements.) *)
Fixpoint order_free (v : Value) : bool :=
  match v with
  | ValObject o => Object_order_free o
  | _ => true
  end
with Object_order_free (o : Object) : bool :=
  match o with
  | Build_Object _ m =>
      (size m <=? 1)%nat
      && map_fold (fun _ v acc => order_free v && acc) true m
  end.

(** The bytes a number may be written with: the digits, the letters, the
    signs, the point and the underscore. *)
Definition numeric_byte (c : ascii) : bool :=
  is_digit c || is_lower_letter c
  || Ascii.eqb c "+" || Ascii.eqb c "-" || Ascii.eqb c "." || Ascii.eqb c "_".

Fixpoint all_numeric_bytes (s : string) : bool :=
  match s with
  | EmptyString => true
  | String c rest => numeric_byte c && all_numeric_bytes rest
  end.

(** A scanner that goes from [s] at index [i] to [s'] at index [i'] has
    read a prefix of [s] of that length, made of bytes of a number. *)
Definition read (s s' : string) (i i' : Z) : Prop :=
  exists pre, s = pre +:+ s'
              /\ i' = i + Z.of_nat (String.length pre)
              /\ all_numeric_bytes pre = true.


(** A word in lower-case letters, as [special] compares with. *)
Fixpoint lower_case_word (p : string) : bool :=
  match p with
  | EmptyString => true
  | String c rest =>
      (97 <=? byte_code c) && (byte_code c <=? 122) && lower_case_word rest
  end.

(** * Properties *)

(** ** strconv.ParseInt against the specification's integer literals *)

Section ParseInt_facts.

Lemma two_64 : 2 ^ 64 = 18446744073709551616.
Proof. reflexivity. Qed.

Lemma two_63 : 2 ^ 63 = 9223372036854775808.
Proof. reflexivity. Qed.

Lemma byte_code_range c : 0 <= byte_code c < 256.
Proof.
  unfold byte_code. destruct c as [[] [] [] [] [] [] [] []]; vm_compute;
    split; congruence.
Qed.

Lemma is_digit_val c : is_digit c = true -> 0 <= digit_val c <= 9.
Proof.
  unfold is_digit, digit_val. change (byte_code "0") with 48.
  change (byte_code "9") with 57. lia.
Qed.

Lemma lower_ge c : byte_code c <= lower c.
Proof.
  unfold lower. pose proof (byte_code_range c) as Hc.
  destruct c as [[] [] [] [] [] [] [] []]; vm_compute; congruence.
Qed.

Lemma digits_value_ge s : forall n, 0 <= n -> all_digits s = true ->
  n <= digits_value s n.
Proof.
  induction s as [|c s IH]; intros n Hn Hs;
    cbn [all_digits digits_value] in *; [lia|].
  apply andb_true_iff in Hs as [Hc Hs]. apply is_digit_val in Hc.
  pose proof (IH (n * 10 + digit_val c) ltac:(lia) Hs). lia.
Qed.


Lemma ParseUint_loop_digit c s n : is_digit c = true ->
  strconv.ParseUint_loop (String c s) n =
    if n >=? 1844674407370955162 then (18446744073709551615, Some strconv.ErrRange)
    else
      let n' := (n * 10) mod 18446744073709551616 in
      let n1 := (n' + digit_val c) mod 18446744073709551616 in
      if (n1 <? n') || (n1 >? 18446744073709551615)
      then (18446744073709551615, Some strconv.ErrRange)
      else strconv.ParseUint_loop s n1.
Proof.
  intros Hc. pose proof (is_digit_val c Hc) as Hd.
  cbn [strconv.ParseUint_loop]. rewrite Hc.
  change strconv.base with 10.
  change (strconv.maxUint64 / 10 + 1) with 1844674407370955162.
  change (2 ^ strconv.bitSize - 1) with 18446744073709551615.
  change (2 ^ 64) with 18446744073709551616.
  destruct (Z.geb_spec (digit_val c) 10); [lia|]. reflexivity.
Qed.

Lemma ParseUint_loop_digits s : forall n, 0 <= n < 18446744073709551616 ->
  all_digits s = true ->
  strconv.ParseUint_loop s n =
    if digits_value s n <? 18446744073709551616 then (digits_value s n, None)
    else (18446744073709551615, Some strconv.ErrRange).
Proof.
  induction s as [|c s IH]; intros n Hn Hs.
  - cbn [strconv.ParseUint_loop digits_value].
    destruct (Z.ltb_spec n 18446744073709551616); [reflexivity | lia].
  - cbn [all_digits] in Hs. apply andb_true_iff in Hs as [Hc Hs].
    pose proof (is_digit_val c Hc) as Hd.
    pose proof (digits_value_ge s (n * 10 + digit_val c) ltac:(lia) Hs) as Hge.
    rewrite (ParseUint_loop_digit c s n Hc). cbn [digits_value]. cbv zeta.
    destruct (Z.geb_spec n 1844674407370955162) as [Hcut|Hcut].
    + destruct (Z.ltb_spec (digits_value s (n * 10 + digit_val c))
                  18446744073709551616); [lia | reflexivity].
    + rewrite (Z.mod_small (n * 10)) by lia.
      destruct (Z.lt_ge_cases (n * 10 + digit_val c) 18446744073709551616)
        as [Hfit|Hwrap].
      * rewrite (Z.mod_small (n * 10 + digit_val c)) by lia.
        destruct (Z.ltb_spec (n * 10 + digit_val c) (n * 10)); [lia|].
        destruct (Z.gtb_spec (n * 10 + digit_val c) 18446744073709551615);
          [lia|]. cbn [orb]. apply IH; [lia | exact Hs].
      * assert ((n * 10 + digit_val c) mod 18446744073709551616
                = n * 10 + digit_val c - 18446744073709551616) as ->.
        { symmetry. apply Z.mod_unique with (q := 1); lia. }
        destruct (Z.ltb_spec (n * 10 + digit_val c - 18446744073709551616)
                    (n * 10)); [|lia]. cbn [orb].
        destruct (Z.ltb_spec (digits_value s (n * 10 + digit_val c))
                    18446744073709551616); [lia | reflexivity].
Qed.

Lemma ParseUint_loop_ok s : forall n v,
  strconv.ParseUint_loop s n = (v, None) -> all_digits s = true.
Proof.
  induction s as [|c s IH]; intros n v H; [reflexivity|].
  cbn [all_digits]. destruct (is_digit c) eqn:Hc.
  - rewrite (ParseUint_loop_digit c s n Hc) in H. cbv zeta in H.
    destruct (n >=? _); [discriminate|].
    destruct (_ || _); [discriminate|]. cbn [andb]. eapply IH, H.
  - cbn [strconv.ParseUint_loop] in H. rewrite Hc in H.
    destruct (is_lower_letter c) eqn:Hl; [|discriminate].
    unfold is_lower_letter in Hl. apply andb_true_iff in Hl as [Hl _].
    destruct (Z.geb_spec (lower c - byte_code "a" + 10) strconv.base) as [|Hlt];
      [discriminate|].
    unfold strconv.base in Hlt. lia.
Qed.


(** A range error of the loop comes with the largest value. *)
Lemma ParseUint_loop_range s : forall n v,
  strconv.ParseUint_loop s n = (v, Some strconv.ErrRange) ->
  v = 18446744073709551615.
Proof.
  induction s as [|c s IH]; intros n v H; [discriminate|].
  destruct (is_digit c) eqn:Hc.
  - rewrite (ParseUint_loop_digit c s n Hc) in H. cbv zeta in H.
    destruct (n >=? _); [congruence|].
    destruct (_ || _); [congruence|]. eapply IH, H.
  - cbn [strconv.ParseUint_loop] in H. rewrite Hc in H.
    destruct (is_lower_letter c) eqn:Hl; [|discriminate].
    unfold is_lower_letter in Hl. apply andb_true_iff in Hl as [Hl _].
    destruct (Z.geb_spec (lower c - byte_code "a" + 10) strconv.base) as [|Hlt];
      [discriminate|].
    unfold strconv.base in Hlt. lia.
Qed.

Lemma ParseUint_nonempty c s :
  strconv.ParseUint (String c s) = strconv.ParseUint_loop (String c s) 0.
Proof. reflexivity. Qed.

(** [ParseInt] in terms of [ParseUint] and of the sign. *)
Lemma ParseInt_split s :
  strconv.ParseInt s =
    let '(neg, ds) := split_sign s in
    match ds with
    | EmptyString => (0, Some strconv.ErrSyntax)
    | _ =>
        let '(un, err) := strconv.ParseUint ds in
        match err with
        | Some strconv.ErrSyntax => (0, err)
        | _ =>
            if negb neg && (un >=? 9223372036854775808)
            then (9223372036854775807, Some strconv.ErrRange)
            else if neg && (un >? 9223372036854775808)
            then (-9223372036854775808, Some strconv.ErrRange)
            else (if neg then - un else un, None)
        end
    end.
Proof.
  destruct s as [|c0 rest]; [reflexivity|].
  unfold strconv.ParseInt, split_sign.
  destruct (Ascii.eqb c0 "-") eqn:Hm.
  - rewrite orb_true_r. destruct rest; reflexivity.
  - rewrite orb_false_r. destruct (Ascii.eqb c0 "+") eqn:Hp.
    + destruct rest; reflexivity.
    + reflexivity.
Qed.

(** [strconv.ParseInt(s, 10, 64)] succeeds exactly on the integer literals
    of the specification, with the value they denote. *)
Lemma ParseInt_strict s i :
  strconv.ParseInt s = (i, None) <-> strict_base10_int64 s = Some i.
Proof.
  rewrite ParseInt_split. unfold strict_base10_int64.
  destruct (split_sign s) as [neg ds].
  destruct ds as [|c ds]; [split; discriminate|].
  rewrite ParseUint_nonempty.
  unfold int64_min, int64_max. rewrite two_63.
  change (- 9223372036854775808) with (-9223372036854775808).
  change (9223372036854775808 - 1) with 9223372036854775807.
  destruct (all_digits (String c ds)) eqn:Hd.
  - rewrite (ParseUint_loop_digits _ 0 ltac:(lia) Hd).
    pose proof (digits_value_ge _ 0 ltac:(lia) Hd) as Hge.
    set (v := digits_value (String c ds) 0) in *.
    destruct (Z.ltb_spec v 18446744073709551616) as [Hv|Hv].
    + destruct neg; cbn [negb andb];
        repeat match goal with
               | |- context [Z.geb ?a ?b] => destruct (Z.geb_spec a b)
               | |- context [Z.gtb ?a ?b] => destruct (Z.gtb_spec a b)
               | |- context [Z.leb ?a ?b] => destruct (Z.leb_spec a b)
               end; cbn [andb]; split; intros Heq; inversion Heq; try lia;
        reflexivity.
    + destruct neg; cbn [negb andb];
        repeat match goal with
               | |- context [Z.geb ?a ?b] => destruct (Z.geb_spec a b)
               | |- context [Z.gtb ?a ?b] => destruct (Z.gtb_spec a b)
               | |- context [Z.leb ?a ?b] => destruct (Z.leb_spec a b)
               end; cbn [andb]; split; intros Heq; inversion Heq; try lia.
  - split; [|discriminate].
    destruct (strconv.ParseUint_loop (String c ds) 0) as [un [[]|]] eqn:Hloop.
    + discriminate.
    + apply ParseUint_loop_range in Hloop. subst un.
      destruct neg; cbn; discriminate.
    + apply ParseUint_loop_ok in Hloop. congruence.
Qed.

Lemma strict_base10_int64_None s :
  strict_base10_int64 s = None ->
  exists v e, strconv.ParseInt s = (v, Some e).
Proof.
  intros Hs. destruct (strconv.ParseInt s) as [v [e|]] eqn:Hp; [eauto|].
  apply ParseInt_strict in Hp. congruence.
Qed.

(** A point or an exponent letter is not a digit and not a sign. *)
Lemma all_digits_no_fraction_or_exponent s :
  all_digits s = true -> has_fraction_or_exponent s = false.
Proof.
  induction s as [|c s IH]; [reflexivity|].
  cbn [all_digits has_fraction_or_exponent]. intros [Hc Hs]%andb_true_iff.
  rewrite (IH Hs), orb_false_r.
  destruct c as [[] [] [] [] [] [] [] []]; try reflexivity; discriminate Hc.
Qed.

Lemma has_fraction_or_exponent_cons c s :
  has_fraction_or_exponent (String c s) =
    Ascii.eqb c "." || Ascii.eqb c "e" || Ascii.eqb c "E"
    || has_fraction_or_exponent s.
Proof. reflexivity. Qed.

Lemma strict_base10_int64_no_fraction_or_exponent s i :
  strict_base10_int64 s = Some i -> has_fraction_or_exponent s = false.
Proof.
  unfold strict_base10_int64, split_sign.
  destruct s as [|c s]; [discriminate|].
  destruct (Ascii.eqb_spec c "-") as [->|Hm];
    [|destruct (Ascii.eqb_spec c "+") as [->|Hp]].
  - destruct s as [|c' s]; [discriminate|].
    destruct (all_digits (String c' s)) eqn:Hd; [|discriminate].
    intros _. rewrite has_fraction_or_exponent_cons.
    now rewrite (all_digits_no_fraction_or_exponent _ Hd).
  - destruct s as [|c' s]; [discriminate|].
    destruct (all_digits (String c' s)) eqn:Hd; [|discriminate].
    intros _. rewrite has_fraction_or_exponent_cons.
    now rewrite (all_digits_no_fraction_or_exponent _ Hd).
  - destruct (all_digits (String c s)) eqn:Hd; [|discriminate].
    intros _. now apply all_digits_no_fraction_or_exponent.
Qed.

End ParseInt_facts.

(** ** The conversion float64(i) *)

Section float64_conversion.

Lemma digits2_pos_size p : digits2_pos p = Pos.size p.
Proof. induction p; simpl; congruence. Qed.

(** The number of binary digits of a positive number. *)
Lemma digits2_pos_spec p :
  2 ^ (Zpos (digits2_pos p) - 1) <= Zpos p < 2 ^ Zpos (digits2_pos p).
Proof.
  rewrite digits2_pos_size. split.
  - pose proof (Pos.size_le p) as Hle.
    assert (Zpos (2 ^ Pos.size p) <= Zpos p~0) as Hle' by exact Hle.
    rewrite Pos2Z.inj_pow in Hle'. change (Zpos p~0) with (2 * Zpos p) in Hle'.
    replace (Zpos (Pos.size p)) with (Z.succ (Zpos (Pos.size p) - 1)) in Hle' by lia.
    rewrite Z.pow_succ_r in Hle' by lia. lia.
  - pose proof (Pos.size_gt p) as Hgt.
    assert (Zpos p < Zpos (2 ^ Pos.size p)) as Hgt' by exact Hgt.
    now rewrite Pos2Z.inj_pow in Hgt'.
Qed.

Lemma digits2_pos_unique p n :
  2 ^ (n - 1) <= Zpos p < 2 ^ n -> Zpos (digits2_pos p) = n.
Proof.
  intros [Hlo Hhi]. pose proof (digits2_pos_spec p) as [Hlo' Hhi'].
  destruct (Z.lt_trichotomy (Zpos (digits2_pos p)) n) as [Hlt|[Heq|Hgt]];
    [|exact Heq|].
  - assert (2 ^ Zpos (digits2_pos p) <= 2 ^ (n - 1))
      by (apply Z.pow_le_mono_r; lia). lia.
  - assert (0 <= n \/ n < 0) as [Hn|Hn] by lia.
    + assert (2 ^ n <= 2 ^ (Zpos (digits2_pos p) - 1))
        by (apply Z.pow_le_mono_r; lia). lia.
    + rewrite (Z.pow_neg_r 2 n) in Hhi by lia. lia.
Qed.

Lemma iter_pos_Pos_iter {A} (f : A -> A) p : forall x,
  SpecFloat.iter_pos f p x = Pos.iter f x p.
Proof.
  induction p as [p IH|p IH|]; intros x; cbn [SpecFloat.iter_pos Pos.iter].
  - now rewrite !IH, !Pos.iter_swap.
  - now rewrite !IH.
  - reflexivity.
Qed.

(** One step of the shift to the right. *)
Lemma shr_1_spec m r s : 0 <= m ->
  exists m' r',
    shr_1 {| shr_m := m; shr_r := r; shr_s := s |}
    = {| shr_m := m'; shr_r := r'; shr_s := r || s |}
    /\ 0 <= m' /\ m = 2 * m' + (if r' then 1 else 0).
Proof.
  intros Hm. destruct m as [|[p|p|]|]; cbn [shr_1]; try lia.
  - exists 0, false. repeat split; lia.
  - exists (Zpos p), true. repeat split; lia.
  - exists (Zpos p), false. repeat split; lia.
  - exists 0, true. repeat split; lia.
Qed.

(** [k] steps: the mantissa, the round bit and the sticky bit. *)
Lemma shr_iter_spec k : forall M, 0 <= M ->
  exists m r s rest,
    Pos.iter shr_1 {| shr_m := M; shr_r := false; shr_s := false |} k
    = {| shr_m := m; shr_r := r; shr_s := s |}
    /\ 0 <= m /\ 0 <= rest < 2 ^ (Zpos k - 1)
    /\ M = m * 2 ^ Zpos k + (if r then 2 ^ (Zpos k - 1) else 0) + rest
    /\ (s = true <-> rest <> 0).
Proof.
  induction k as [|k IH] using Pos.peano_ind; intros M HM.
  - destruct (shr_1_spec M false false HM) as (m' & r' & Heq & Hm' & HMeq).
    exists m', r', false, 0. cbn [Pos.iter]. rewrite Heq.
    change (2 ^ (1 - 1)) with 1. change (2 ^ 1) with 2.
    repeat split; try lia; try discriminate.
  - destruct (IH M HM) as (m & r & s & rest & Heq & Hm & Hrest & HMeq & Hs).
    rewrite Pos.iter_succ, Heq.
    destruct (shr_1_spec m r s Hm) as (m' & r' & Heq' & Hm' & Hmeq).
    rewrite Heq'.
    exists m', r', (r || s), ((if r then 2 ^ (Zpos k - 1) else 0) + rest).
    rewrite Pos2Z.inj_succ.
    replace (Z.succ (Zpos k) - 1) with (Zpos k) by lia.
    rewrite Z.pow_succ_r by lia.
    assert (2 ^ Zpos k = 2 * 2 ^ (Zpos k - 1)) as Hpow.
    { rewrite <- Z.pow_succ_r by lia. f_equal. lia. }
    assert (0 < 2 ^ (Zpos k - 1)) by (apply Z.pow_pos_nonneg; lia).
    split; [reflexivity|]. split; [exact Hm'|]. split; [destruct r; lia|].
    split.
    + subst m. destruct r, r'; lia.
    + destruct r, s; cbn [orb]; split; intros; try reflexivity;
        try lia; try (apply Hs; lia).
Qed.

Lemma digits2_pos_bound p n : 0 <= n -> Zpos p < 2 ^ n -> Zpos (digits2_pos p) <= n.
Proof.
  intros Hn Hp. rewrite digits2_pos_size.
  destruct (Z.le_gt_cases (Zpos (Pos.size p)) n) as [|Hgt]; [assumption|].
  pose proof (Pos.size_le p) as Hle.
  assert (Zpos (2 ^ Pos.size p) <= Zpos p~0) as Hle' by exact Hle.
  rewrite Pos2Z.inj_pow in Hle'. rewrite Pos2Z.inj_xO in Hle'.
  assert (2 ^ (n + 1) <= 2 ^ Zpos (Pos.size p)) by (apply Z.pow_le_mono_r; lia).
  rewrite Z.pow_add_r in H by lia. lia.
Qed.

Lemma iter_xO_val m k : Zpos (Pos.iter xO m k) = Zpos m * 2 ^ Zpos k.
Proof.
  induction k using Pos.peano_ind.
  - simpl. lia.
  - rewrite Pos.iter_succ, Pos2Z.inj_xO, IHk, Pos2Z.inj_succ, Z.pow_succ_r; lia.
Qed.

Lemma iter_xO_digits m k :
  Zpos (digits2_pos (Pos.iter xO m k)) = Zpos (digits2_pos m) + Zpos k.
Proof.
  induction k using Pos.peano_ind.
  - simpl. lia.
  - rewrite Pos.iter_succ. cbn [digits2_pos]. rewrite Pos2Z.inj_succ, IHk. lia.
Qed.

Lemma binary_round_aux_canonical s mz ez :
  Zpos (digits2_pos mz) = 53 -> -1074 <= ez <= 971 ->
  binary_round_aux 53 1024 s (Zpos mz) ez loc_Exact = S754_finite s mz ez.
Proof.
  intros Hd He. unfold binary_round_aux, shr_fexp, fexp, emin.
  cbn [Zdigits2 shr_record_of_loc]. rewrite Hd.
  replace (Z.max (53 + ez - 53) (3 - 1024 - 53) - ez) with 0 by lia.
  cbn [shr shr_m loc_of_shr_record round_nearest_even Zdigits2].
  rewrite Hd.
  replace (Z.max (53 + ez - 53) (3 - 1024 - 53) - ez) with 0 by lia.
  cbn [shr shr_m shr_record_of_loc].
  destruct (Z.leb_spec ez (1024 - 53)); [reflexivity | lia].
Qed.

(** Rounding a mantissa of more than 53 bits: the result is within half
    a unit in the last place, that is [2 ^ (k - 1)] for a shift of [k]. *)
Lemma binary_round_large s m k :
  Zpos (digits2_pos m) = 53 + Zpos k -> Zpos k <= 900 ->
  exists mz ez,
    binary_round 53 1024 s m 0 = S754_finite s mz ez
    /\ 0 <= ez
    /\ Z.abs (Zpos mz * 2 ^ ez - Zpos m) <= 2 ^ (Zpos k - 1).
Proof.
  intros Hd Hk. pose proof (digits2_pos_spec m) as [Hlo Hhi].
  rewrite Hd in Hlo, Hhi.
  replace (53 + Zpos k - 1) with (52 + Zpos k) in Hlo by lia.
  rewrite Z.pow_add_r in Hlo, Hhi by lia.
  unfold binary_round, shl_align, fexp, emin. rewrite Hd.
  replace (Z.max (53 + Zpos k + 0 - 53) (3 - 1024 - 53)) with (Zpos k) by lia.
  change (Zpos k - 0) with (Zpos k). cbv beta iota.
  unfold binary_round_aux, shr_fexp, fexp, emin.
  cbn [Zdigits2 shr_record_of_loc]. rewrite Hd.
  replace (Z.max (53 + Zpos k + 0 - 53) (3 - 1024 - 53) - 0) with (Zpos k) by lia.
  cbn [shr]. rewrite iter_pos_Pos_iter.
  destruct (shr_iter_spec k (Zpos m) ltac:(lia))
    as (m1 & r1 & s1 & rest & -> & Hm1 & Hrest & HM & Hs).
  cbn [shr_m].
  assert (0 < 2 ^ (Zpos k - 1)) as Hpos by (apply Z.pow_pos_nonneg; lia).
  assert (2 ^ Zpos k = 2 * 2 ^ (Zpos k - 1)) as Hpow.
  { rewrite <- Z.pow_succ_r by lia. f_equal. lia. }
  set (mx := round_nearest_even m1
               (loc_of_shr_record {| shr_m := m1; shr_r := r1; shr_s := s1 |})).
  assert (2 ^ 52 <= mx <= 2 ^ 53
          /\ Z.abs (mx * 2 ^ Zpos k - Zpos m) <= 2 ^ (Zpos k - 1)) as [Hmx Herr].
  { assert (s1 = false -> rest = 0) as Hs0.
    { intros ->. destruct (Z.eq_dec rest 0); [assumption|].
      apply Hs in n. discriminate. }
    assert (s1 = true -> 0 < rest) as Hs1.
    { intros ->. assert (rest <> 0) by now apply Hs. lia. }
    assert (2 ^ 52 <= m1 < 2 ^ 53) as Hm1r by (destruct r1; nia).
    subst mx. destruct r1, s1; cbn [loc_of_shr_record round_nearest_even];
      try specialize (Hs0 eq_refl); try specialize (Hs1 eq_refl);
      try destruct (Z.even m1); split; nia. }
  clearbody mx.
  destruct (Z.eq_dec mx (2 ^ 53)) as [->|Hne].
  - exists (4503599627370496%positive), (Zpos k + 1).
    change (Zdigits2 (2 ^ 53)) with 54.
    replace (Z.max (54 + (0 + Zpos k) - 53) (3 - 1024 - 53) - (0 + Zpos k))
      with 1 by lia.
    cbn [shr SpecFloat.iter_pos]. change (2 ^ 53) with 9007199254740992.
    cbn [shr_1 shr_m].
    destruct (Z.leb_spec (0 + Zpos k + 1) (1024 - 53)); [|lia].
    split; [f_equal; lia|]. split; [lia|].
    rewrite Z.pow_add_r by lia. change (2 ^ 53) with 9007199254740992 in Herr.
    change (2 ^ 1) with 2. lia.
  - destruct mx as [|px|px]; try (change (2 ^ 52) with 4503599627370496 in Hmx; lia).
    exists px, (Zpos k).
    assert (Zpos (digits2_pos px) = 53) as Hdx
      by (apply digits2_pos_unique; change (53 - 1) with 52; lia).
    cbn [Zdigits2]. rewrite Hdx.
    replace (Z.max (53 + (0 + Zpos k) - 53) (3 - 1024 - 53) - (0 + Zpos k))
      with 0 by lia.
    cbn [shr shr_m].
    destruct (Z.leb_spec (0 + Zpos k) (1024 - 53)); [|lia].
    split; [f_equal; lia|]. split; [lia|]. exact Herr.
Qed.

Lemma binary_round_small s m :
  Zpos m < 2 ^ 53 ->
  exists m' e, binary_round 53 1024 s m 0 = S754_finite s m' e
               /\ -52 <= e <= 0 /\ Zpos m' = Zpos m * 2 ^ (- e).
Proof.
  intros Hm. pose proof (digits2_pos_bound m 53 ltac:(lia) Hm) as Hd.
  unfold binary_round, shl_align, fexp, emin.
  destruct (Z.eq_dec (Zpos (digits2_pos m)) 53) as [Heq|Hne].
  - rewrite Heq. change (Z.max (53 + 0 - 53) (3 - 1024 - 53) - 0) with 0.
    cbv beta iota zeta.
    exists m, 0. rewrite binary_round_aux_canonical by (assumption || lia).
    split; [reflexivity|]. split; [lia|]. change (2 ^ (- 0)) with 1. lia.
  - assert (exists k, Z.max (Zpos (digits2_pos m) + 0 - 53) (3 - 1024 - 53) - 0
                      = Zneg k /\ Zpos k = 53 - Zpos (digits2_pos m)) as (k & -> & Hk).
    { destruct (Z.max (Zpos (digits2_pos m) + 0 - 53) (3 - 1024 - 53) - 0) as [|p|p] eqn:E;
        try lia. exists p. split; [reflexivity | lia]. }
    exists (Pos.iter xO m k), (Zpos (digits2_pos m) - 53).
    replace (Z.max (Zpos (digits2_pos m) + 0 - 53) (3 - 1024 - 53))
      with (Zpos (digits2_pos m) - 53) by lia.
    rewrite binary_round_aux_canonical.
    + split; [reflexivity|]. split; [lia|]. rewrite iter_xO_val.
      f_equal. f_equal. lia.
    + rewrite iter_xO_digits. lia.
    + lia.
Qed.

Lemma float64_of_int64_exact i :
  - 2 ^ 53 <= i <= 2 ^ 53 -> float64_is_integer (float64_of_int64 i) i = true.
Proof.
  intros Hi.
  destruct (Z.eq_dec i (2 ^ 53)) as [->|Hhi]; [reflexivity|].
  destruct (Z.eq_dec i (- 2 ^ 53)) as [->|Hlo]; [reflexivity|].
  unfold float64_of_int64, binary_normalize, strconv.prec, strconv.emax.
  destruct i as [|m|m]; [reflexivity| |].
  - destruct (binary_round_small false m ltac:(lia)) as (m' & e & -> & He & Hm').
    cbn [float64_is_integer cond_Zopp].
    destruct (Z.leb_spec 0 e).
    + replace e with 0 in * by lia. change (2 ^ (- 0)) with 1 in Hm'.
      change (2 ^ 0) with 1. apply Z.eqb_eq. lia.
    + apply Z.eqb_eq. lia.
  - destruct (binary_round_small true m ltac:(lia)) as (m' & e & -> & He & Hm').
    cbn [float64_is_integer cond_Zopp].
    destruct (Z.leb_spec 0 e).
    + replace e with 0 in * by lia. change (2 ^ (- 0)) with 1 in Hm'.
      change (2 ^ 0) with 1. apply Z.eqb_eq. lia.
    + apply Z.eqb_eq. lia.
Qed.


Lemma float64_is_integer_finite s mz ez : 0 <= ez ->
  float64_is_integer (S754_finite s mz ez) (cond_Zopp s (Zpos mz * 2 ^ ez))
  = true.
Proof.
  intros He. cbn [float64_is_integer].
  destruct (Z.leb_spec 0 ez); [apply Z.eqb_refl | lia].
Qed.

(** [float64(i)] of an [int64] is a whole number [v] within
    [|i| / 2 ^ 53] of [i]: half a unit in the last place. *)
Lemma float64_of_int64_rounds i :
  int64_min <= i <= int64_max ->
  exists v, float64_is_integer (float64_of_int64 i) v = true
            /\ 2 ^ 53 * Z.abs (v - i) <= Z.abs i.
Proof.
  unfold int64_min, int64_max. rewrite two_63. intros Hi.
  assert (forall s m, Zpos m <= 9223372036854775808 ->
            exists v, float64_is_integer (binary_round 53 1024 s m 0)
                        (cond_Zopp s v) = true
                      /\ 2 ^ 53 * Z.abs (v - Zpos m) <= Zpos m) as Hround.
  { intros s m Hm. pose proof (digits2_pos_spec m) as [Hlo Hhi].
    destruct (Z.le_gt_cases (Zpos (digits2_pos m)) 53) as [Hd|Hd].
    - assert (Zpos m < 2 ^ 53) as Hm'.
      { assert (2 ^ Zpos (digits2_pos m) <= 2 ^ 53)
          by (apply Z.pow_le_mono_r; lia). lia. }
      exists (Zpos m). split.
      + pose proof (float64_of_int64_exact (cond_Zopp s (Zpos m))) as Hex.
        unfold float64_of_int64, binary_normalize, strconv.prec, strconv.emax
          in Hex.
        destruct s; cbn [cond_Zopp Z.opp] in Hex |- *; apply Hex; lia.
      + rewrite Z.sub_diag. cbn [Z.abs]. lia.
    - assert (exists k, Zpos (digits2_pos m) = 53 + Zpos k) as [k Hk].
      { destruct (Zpos (digits2_pos m) - 53) as [|k|k] eqn:E; try lia.
        exists k. lia. }
      assert (Zpos k <= 11) as Hk11.
      { destruct (Z.le_gt_cases (Zpos k) 11) as [|Hgt]; [assumption|].
        assert (2 ^ 64 <= 2 ^ (Zpos (digits2_pos m) - 1))
          by (apply Z.pow_le_mono_r; lia).
        rewrite two_64 in *. lia. }
      destruct (binary_round_large s m k Hk ltac:(lia))
        as (mz & ez & -> & Hez & Herr).
      exists (Zpos mz * 2 ^ ez). split.
      + now apply float64_is_integer_finite.
      + rewrite Hk in Hlo.
        replace (53 + Zpos k - 1) with (53 + (Zpos k - 1)) in Hlo by lia.
        rewrite Z.pow_add_r in Hlo by lia. nia. }
  unfold float64_of_int64, binary_normalize, strconv.prec, strconv.emax.
  destruct i as [|m|m].
  - exists 0. split; reflexivity.
  - destruct (Hround false m ltac:(lia)) as (v & Hv & Hb).
    exists v. split; [exact Hv | exact Hb].
  - destruct (Hround true m ltac:(lia)) as (v & Hv & Hb).
    exists (- v). split; [exact Hv|].
    replace (- v - Zneg m) with (- (v - Zpos m)) by lia.
    rewrite Z.abs_opp. cbn [Z.abs]. exact Hb.
Qed.

Lemma strict_base10_int64_range s i :
  strict_base10_int64 s = Some i -> int64_min <= i <= int64_max.
Proof.
  unfold strict_base10_int64. destruct (split_sign s) as [neg ds].
  destruct ds as [|c ds]; [discriminate|].
  destruct (all_digits _); [|discriminate].
  destruct (_ && _) eqn:Hr; [|discriminate].
  intros [= <-]. apply andb_true_iff in Hr as [H1%Z.leb_le H2%Z.leb_le].
  split; assumption.
Qed.

End float64_conversion.

(** ** The loop of Object.String *)

Section Object_String_facts.

Lemma append_cons x (a b : string) : String x a +:+ b = String x (a +:+ b).
Proof. reflexivity. Qed.

Lemma append_assoc (a b c : string) : (a +:+ b) +:+ c = a +:+ (b +:+ c).
Proof.
  induction a as [|x a IH]; [reflexivity|].
  now rewrite !append_cons, IH.
Qed.

Lemma append_empty_r (a : string) : a +:+ "" = a.
Proof.
  induction a as [|x a IH]; [reflexivity|]. now rewrite append_cons, IH.
Qed.

(** The loop appends the pairs to the builder, with a separator before
    every pair but the very first one. *)
Lemma Object_String_loop_join l : forall i b, 0 <= i ->
  Object_String_loop l i b =
    b +:+ match l with
          | [] => ""
          | _ => (if 0 <? i then ", " else "") +:+ join_pairs l
          end.
Proof.
  induction l as [|[k vs] rest IH]; intros i b Hi.
  - cbn [Object_String_loop]. now rewrite append_empty_r.
  - cbn [Object_String_loop join_pairs]. rewrite IH by lia.
    destruct (Z.ltb_spec 0 (i + 1)) as [_|]; [|lia].
    destruct (0 <? i); destruct rest as [|kv rest];
      now rewrite ?append_assoc, ?append_empty_r.
Qed.

Lemma Object_String_in_order_join l :
  Object_String_in_order l = "{" +:+ join_pairs l +:+ "}".
Proof.
  unfold Object_String_in_order. rewrite Object_String_loop_join by lia.
  destruct l; [reflexivity|]. cbn [Z.ltb Z.compare]. now rewrite append_assoc.
Qed.

Lemma Value_size_entry (m : gmap string Value) k v :
  (k, v) ∈ map_to_list m ->
  (Value_size v <
     S (map_fold (fun _ v acc => (Value_size v + acc)%nat) 0%nat m))%nat.
Proof.
  rewrite map_fold_foldr. induction (map_to_list m) as [|[k' v'] l IH].
  - intros H. inversion H.
  - intros [Heq|Hin]%elem_of_cons; cbn.
    + inversion Heq; subst. lia.
    + specialize (IH Hin). lia.
Qed.

Lemma Forall2_from_exists {A B} (R : A -> B -> Prop) (l : list A) :
  (forall x, x ∈ l -> exists y, R x y) -> exists l', Forall2 R l l'.
Proof.
  induction l as [|x l IH]; intros H.
  - exists []. constructor.
  - destruct (H x) as [y Hy]; [left|].
    destruct IH as [l' Hl']; [intros z Hz; apply H; now right|].
    exists (y :: l'). now constructor.
Qed.

(** [String] returns on every value. *)
Lemma Value_String_total_sized n : forall v,
  (Value_size v < n)%nat -> exists s, Value_String v s.
Proof.
  induction n as [|n IH]; intros v Hv; [lia|].
  destruct v as [[t m]|a|s|x|b|x]; try (eexists; constructor; fail).
  destruct (Forall2_from_exists (fun kv s => Value_String kv.2 s)
              (map_to_list m)) as [rendered Hr].
  - intros [k v] Hin. apply IH. cbn [snd].
    pose proof (Value_size_entry m k v Hin). cbn in Hv. lia.
  - eexists. constructor. eapply String_Object with (visited := map_to_list m);
      [reflexivity | exact Hr].
Qed.

Lemma Value_String_total v : exists s, Value_String v s.
Proof. apply (Value_String_total_sized (S (Value_size v))). lia. Qed.

End Object_String_facts.

(** ** The number classifier *)

Section NewNumberLiteral_facts.

(** The three ways out of [NewNumberLiteral], by the results of the two
    parsers. *)
Lemma NewNumberLiteral_int_branch token i :
  strconv.ParseInt (Literal token) = (i, None) ->
  NewNumberLiteral token =
    {| NumberLiteral_Token := token; NumberLiteral_Value := Literal token;
       Float := float64_of_int64 i; Int := i;
       IsInt := true; IsValid := true |}.
Proof. intros H. unfold NewNumberLiteral. now rewrite H. Qed.

Lemma NewNumberLiteral_float_branch token v e f :
  strconv.ParseInt (Literal token) = (v, Some e) ->
  strconv.ParseFloat (Literal token) = (f, None) ->
  NewNumberLiteral token =
    {| NumberLiteral_Token := token; NumberLiteral_Value := Literal token;
       Float := f; Int := 0; IsInt := false; IsValid := true |}.
Proof. intros Hi Hf. unfold NewNumberLiteral. now rewrite Hi, Hf. Qed.

Lemma NewNumberLiteral_invalid_branch token v e f e' :
  strconv.ParseInt (Literal token) = (v, Some e) ->
  strconv.ParseFloat (Literal token) = (f, Some e') ->
  NewNumberLiteral token =
    {| NumberLiteral_Token := token; NumberLiteral_Value := Literal token;
       Float := S754_zero false; Int := 0;
       IsInt := false; IsValid := false |}.
Proof. intros Hi Hf. unfold NewNumberLiteral. now rewrite Hi, Hf. Qed.

(** The integer flag is the success of [ParseInt]. *)
Lemma IsInt_NewNumberLiteral token :
  IsInt (NewNumberLiteral token) = true ->
  strconv.ParseInt (Literal token) = (Int (NewNumberLiteral token), None).
Proof.
  unfold NewNumberLiteral.
  destruct (strconv.ParseInt (Literal token)) as [i [e|]]; [|reflexivity].
  destruct (strconv.ParseFloat (Literal token)) as [f [e'|]]; discriminate.
Qed.

End NewNumberLiteral_facts.

(** C1, as amended.  For a token whose literal is a strict base-10 signed
    64-bit integer of value [i], [NewNumberLiteral] sets [IsInt] and
    [IsValid], stores [i] in [Int], and sets [Float] to the conversion
    [float64(i)], which rounds: the float is a whole number within
    [|i| / 2^53] of [i], and it is [i] itself whenever [i] lies between
    [-2^53] and [2^53]. *)
Theorem NewNumberLiteral_integer token i :
  strict_base10_int64 (Literal token) = Some i ->
  let n := NewNumberLiteral token in
  IsInt n = true /\ IsValid n = true /\ Int n = i
  /\ Float n = float64_of_int64 i
  /\ (exists v, float64_is_integer (Float n) v = true
                /\ 2 ^ 53 * Z.abs (v - i) <= Z.abs i)
  /\ (- 2 ^ 53 <= i <= 2 ^ 53 -> float64_is_integer (Float n) i = true).
Proof.
  intros Hs n. pose proof (strict_base10_int64_range _ _ Hs) as Hrange.
  apply ParseInt_strict in Hs. subst n.
  rewrite (NewNumberLiteral_int_branch token i Hs). cbn [IsInt IsValid Int Float].
  repeat split.
  - now apply float64_of_int64_rounds.
  - apply float64_of_int64_exact.
Qed.

Lemma NewNumberLiteral_integer_witness :
  strict_base10_int64 (Literal (number_token "42")) = Some 42
  /\ let n := NewNumberLiteral (number_token "42") in
     IsInt n = true /\ IsValid n = true /\ Int n = 42
     /\ Float n = float64_of_int64 42
     /\ (exists v, float64_is_integer (Float n) v = true
                   /\ 2 ^ 53 * Z.abs (v - 42) <= Z.abs 42)
     /\ (- 2 ^ 53 <= 42 <= 2 ^ 53 -> float64_is_integer (Float n) 42 = true).
Proof.
  split; [reflexivity|].
  apply (NewNumberLiteral_integer (number_token "42") 42). reflexivity.
Defined.

(** C1, as stated, fails: the literal 9007199254740993 (2^53 + 1) is a
    strict base-10 signed 64-bit integer, and [NewNumberLiteral] sets
    [Float] to 9007199254740992, which is not the value of the integer. *)
Lemma NewNumberLiteral_integer_float_inexact :
  let token := number_token "9007199254740993" in
  let n := NewNumberLiteral token in
  strict_base10_int64 (Literal token) = Some 9007199254740993
  /\ IsInt n = true /\ IsValid n = true /\ Int n = 9007199254740993
  /\ Float n = S754_finite false 4503599627370496 1
  /\ float64_is_integer (Float n) 9007199254740992 = true
  /\ float64_is_integer (Float n) (Int n) = false.
Proof. vm_compute. repeat split. Qed.

(** C2.  For a token whose literal is not a strict base-10 signed 64-bit
    integer and which [ParseFloat] accepts with the value [f],
    [NewNumberLiteral] clears [IsInt], sets [IsValid] and stores [f] in
    [Float]. *)
Theorem NewNumberLiteral_float token f :
  strict_base10_int64 (Literal token) = None ->
  strconv.ParseFloat (Literal token) = (f, None) ->
  let n := NewNumberLiteral token in
  IsInt n = false /\ IsValid n = true /\ Float n = f.
Proof.
  intros (v & e & Hi)%strict_base10_int64_None Hf n. subst n.
  rewrite (NewNumberLiteral_float_branch token v e f Hi Hf). repeat split.
Qed.

(** The literal "42.0" of the specification: the float 42 is
    5910974510923776 * 2^-47. *)
Lemma NewNumberLiteral_float_witness :
  strict_base10_int64 (Literal (number_token "42.0")) = None
  /\ strconv.ParseFloat (Literal (number_token "42.0"))
     = (S754_finite false 5910974510923776 (-47), None)
  /\ let n := NewNumberLiteral (number_token "42.0") in
     IsInt n = false /\ IsValid n = true
     /\ Float n = S754_finite false 5910974510923776 (-47).
Proof.
  split; [reflexivity|]. split; [reflexivity|].
  apply (NewNumberLiteral_float (number_token "42.0")); reflexivity.
Defined.

(** C3.  For a token whose literal neither is a strict base-10 signed
    64-bit integer nor is accepted by [ParseFloat], [NewNumberLiteral]
    returns a node with [IsValid] false and with [Int] and [Float] zero. *)
Theorem NewNumberLiteral_invalid token f e :
  strict_base10_int64 (Literal token) = None ->
  strconv.ParseFloat (Literal token) = (f, Some e) ->
  let n := NewNumberLiteral token in
  IsValid n = false /\ Int n = 0 /\ Float n = S754_zero false
  /\ IsInt n = false.
Proof.
  intros (v & e' & Hi)%strict_base10_int64_None Hf n. subst n.
  rewrite (NewNumberLiteral_invalid_branch token v e' f e Hi Hf).
  repeat split.
Qed.

Lemma NewNumberLiteral_invalid_witness :
  strict_base10_int64 (Literal (number_token "1.2.3")) = None
  /\ strconv.ParseFloat (Literal (number_token "1.2.3"))
     = (S754_zero false, Some strconv.ErrSyntax)
  /\ let n := NewNumberLiteral (number_token "1.2.3") in
     IsValid n = false /\ Int n = 0 /\ Float n = S754_zero false
     /\ IsInt n = false.
Proof.
  split; [reflexivity|]. split; [reflexivity|].
  apply (NewNumberLiteral_invalid (number_token "1.2.3")
           (S754_zero false) strconv.ErrSyntax); reflexivity.
Defined.

(** C4.  [IsInt] is set only for a literal that is a strict base-10
    signed 64-bit integer (whose value is then in [Int]), and such a
    literal has no fractional part and no exponent; for every literal with
    a fractional part or an exponent [IsInt] is false. *)
Theorem IsInt_only_strict_integer token :
  let n := NewNumberLiteral token in
  (IsInt n = true ->
     strict_base10_int64 (Literal token) = Some (Int n)
     /\ has_fraction_or_exponent (Literal token) = false)
  /\ (has_fraction_or_exponent (Literal token) = true -> IsInt n = false).
Proof.
  intros n.
  assert (IsInt n = true ->
          strict_base10_int64 (Literal token) = Some (Int n)
          /\ has_fraction_or_exponent (Literal token) = false) as Hint.
  { intros H%IsInt_NewNumberLiteral%ParseInt_strict. split; [exact H|].
    eapply strict_base10_int64_no_fraction_or_exponent, H. }
  split; [exact Hint|]. intros Hfe.
  destruct (IsInt n) eqn:Hn; [|reflexivity].
  destruct (Hint eq_refl) as [_ Hno]. congruence.
Qed.

Lemma IsInt_only_strict_integer_witness :
  let n1 := NewNumberLiteral (number_token "-17") in
  let n2 := NewNumberLiteral (number_token "1.5e3") in
  (IsInt n1 = true /\ strict_base10_int64 "-17" = Some (Int n1)
   /\ has_fraction_or_exponent "-17" = false)
  /\ (has_fraction_or_exponent "1.5e3" = true /\ IsInt n2 = false).
Proof.
  intros n1 n2. split.
  - split; [reflexivity|].
    apply (proj1 (IsInt_only_strict_integer (number_token "-17"))).
    reflexivity.
  - split; [reflexivity|].
    apply (proj2 (IsInt_only_strict_integer (number_token "1.5e3"))).
    reflexivity.
Defined.

(** C5.  For the literal "1e400" [NewNumberLiteral] returns a node that is
    not valid: the float parse overflows, which [ParseFloat] reports as a
    range error, and the node keeps [IsValid] false, [IsInt] false and
    zero in both numeric fields.  So the result is invalid, or valid and
    not an integer, and never a valid integer. *)
Theorem NewNumberLiteral_1e400 token :
  Literal token = "1e400" ->
  let n := NewNumberLiteral token in
  (IsValid n = false \/ (IsValid n = true /\ IsInt n = false))
  /\ ~ (IsValid n = true /\ IsInt n = true)
  /\ strconv.ParseFloat "1e400" = (S754_infinity false, Some strconv.ErrRange)
  /\ IsValid n = false /\ IsInt n = false
  /\ Int n = 0 /\ Float n = S754_zero false.
Proof.
  intros Hlit n. subst n. unfold NewNumberLiteral. rewrite Hlit.
  vm_compute. repeat split; try (left; reflexivity). intros [H _]. discriminate.
Qed.

Lemma NewNumberLiteral_1e400_witness :
  let n := NewNumberLiteral (number_token "1e400") in
  Literal (number_token "1e400") = "1e400"
  /\ (IsValid n = false \/ (IsValid n = true /\ IsInt n = false))
  /\ ~ (IsValid n = true /\ IsInt n = true)
  /\ strconv.ParseFloat "1e400" = (S754_infinity false, Some strconv.ErrRange)
  /\ IsValid n = false /\ IsInt n = false
  /\ Int n = 0 /\ Float n = S754_zero false.
Proof.
  split; [reflexivity|].
  apply (NewNumberLiteral_1e400 (number_token "1e400")). reflexivity.
Defined.

(** ** The accessors of the nodes *)

(** C6.  [String] of an array is the placeholder "[]", whatever the token
    and the elements of the array, also when the array is reached through
    the interface. *)
Theorem Array_String_placeholder (token : Token) (elements : list Value) :
  Array_String (Build_Array token elements) = "[]"
  /\ (forall s, Value_String (ValArray (Build_Array token elements)) s
                <-> s = "[]").
Proof.
  split; [reflexivity|]. intros s. split.
  - intros H. inversion H. reflexivity.
  - intros ->. apply (String_ValArray (Build_Array token elements)).
Qed.

(** C7.  [String] of an object writes, between braces, the pairs of the
    map in the order in which the loop visits them, each as [key: value]
    and separated by [", "]; the order is any permutation of the entries.
    [String] returns for every object, and there is an object with two
    pairs for which two orders give two different strings. *)
Theorem Object_String_iteration_order :
  (forall o s,
     Object_String o s <->
     exists visited rendered,
       visited ≡ₚ map_to_list (Pairs o)
       /\ Forall2 (fun kv r => Value_String kv.2 r) visited rendered
       /\ s = "{" +:+ join_pairs (zip (visited.*1) rendered) +:+ "}")
  /\ (forall o, exists s, Object_String o s)
  /\ (exists o s1 s2,
        size (Pairs o) = 2%nat
        /\ Object_String o s1 /\ Object_String o s2 /\ s1 <> s2).
Proof.
  split; [|split].
  - intros o s. split.
    + intros H. inversion H as [o' visited rendered Hp Hr]; subst.
      exists visited, rendered. split; [exact Hp|]. split; [exact Hr|].
      apply Object_String_in_order_join.
    + intros (visited & rendered & Hp & Hr & ->).
      rewrite <- Object_String_in_order_join. now constructor.
  - intros o. destruct (Value_String_total (ValObject o)) as [s Hs].
    exists s. now inversion Hs.
  - set (null := ValNull {| Null_Token :=
                   {| Kind := NULL; Literal := "null"; Position := 0 |} |}).
    set (m := <["a" := null]> (<["b" := null]> (∅ : gmap string Value))).
    assert (map_to_list m ≡ₚ [("a", null); ("b", null)]) as Hm.
    { unfold m. rewrite map_to_list_insert by reflexivity.
      now rewrite insert_empty, map_to_list_singleton. }
    exists (Build_Object {| Kind := LBRACE; Literal := "{"; Position := 0 |} m),
      "{a: null, b: null}", "{b: null, a: null}".
    split; [|split; [|split]].
    + cbn [Pairs]. rewrite <- length_map_to_list.
      now rewrite (Permutation_length Hm).
    + apply (String_Object _ [("a", null); ("b", null)] ["null"; "null"]).
      * now rewrite Hm.
      * repeat constructor.
    + apply (String_Object _ [("b", null); ("a", null)] ["null"; "null"]).
      * cbn [Pairs]. rewrite Hm. apply Permutation_swap.
      * repeat constructor.
    + discriminate.
Qed.

(** C8.  [TokenLiteral] of every node is the [Literal] of the token the
    node records, for each of the node types and through the interface;
    the node [NewNumberLiteral] builds records the token it is given. *)
Theorem TokenLiteral_is_token_Literal :
  (forall o, Object_TokenLiteral o = Literal (Object_Token o))
  /\ (forall a, Array_TokenLiteral a = Literal (Array_Token a))
  /\ (forall s, StringLiteral_TokenLiteral s = Literal (StringLiteral_Token s))
  /\ (forall n, NumberLiteral_TokenLiteral n = Literal (NumberLiteral_Token n))
  /\ (forall b, Boolean_TokenLiteral b = Literal (Boolean_Token b))
  /\ (forall n, Null_TokenLiteral n = Literal (Null_Token n))
  /\ (forall v, TokenLiteral v = Literal (Value_Token v))
  /\ (forall token,
        NumberLiteral_Token (NewNumberLiteral token) = token
        /\ NumberLiteral_TokenLiteral (NewNumberLiteral token) = Literal token).
Proof.
  repeat split; try reflexivity.
  - destruct v; reflexivity.
  - unfold NewNumberLiteral.
    destruct (strconv.ParseInt _) as [i [e|]]; [|reflexivity].
    destruct (strconv.ParseFloat _) as [f [e'|]]; reflexivity.
  - unfold NumberLiteral_TokenLiteral, NewNumberLiteral.
    destruct (strconv.ParseInt _) as [i [e|]]; [|reflexivity].
    destruct (strconv.ParseFloat _) as [f [e'|]]; reflexivity.
Qed.

(** C9.  [String] of a boolean node is the literal of its token, and it
    does not depend on the field [Value]: two boolean nodes with the same
    token and different values have the same string, also when they are
    reached through the interface. *)
Theorem Boolean_String_token_only (token : Token) (value : bool) :
  let b := {| Boolean_Token := token; Boolean_Value := value |} in
  let b' := {| Boolean_Token := token; Boolean_Value := negb value |} in
  Boolean_String b = Boolean_TokenLiteral b
  /\ Boolean_String b = Literal token
  /\ Boolean_String b = Boolean_String b'
  /\ (forall s, Value_String (ValBoolean b) s <-> Value_String (ValBoolean b') s).
Proof.
  intros b b'. repeat split.
  - intros H. inversion H. apply (String_ValBoolean b').
  - intros H. inversion H. apply (String_ValBoolean b).
Qed.

(** C10.  For a token whose literal neither is a strict base-10 signed
    64-bit integer nor is accepted by [ParseFloat], [String] of the node
    [NewNumberLiteral] builds is "0.000000", the [%f] rendering of the
    zero left in [Float], and not the text of the literal. *)
Theorem NumberLiteral_String_invalid token f e :
  strict_base10_int64 (Literal token) = None ->
  strconv.ParseFloat (Literal token) = (f, Some e) ->
  let n := NewNumberLiteral token in
  IsValid n = false
  /\ NumberLiteral_String n = "0.000000"
  /\ NumberLiteral_String n = fmt.Sprintf_f (S754_zero false)
  /\ NumberLiteral_String n <> Literal token.
Proof.
  intros Hs Hf n.
  destruct (strict_base10_int64_None _ Hs) as (v & e' & Hi). subst n.
  rewrite (NewNumberLiteral_invalid_branch token v e' f e Hi Hf).
  repeat split. intros Heq.
  change (NumberLiteral_String _) with "0.000000" in Heq.
  rewrite <- Heq in Hf. vm_compute in Hf. discriminate.
Qed.

Lemma NumberLiteral_String_invalid_witness :
  let token := number_token "1e400" in
  let n := NewNumberLiteral token in
  strict_base10_int64 (Literal token) = None
  /\ strconv.ParseFloat (Literal token)
     = (S754_infinity false, Some strconv.ErrRange)
  /\ (IsValid n = false
      /\ NumberLiteral_String n = "0.000000"
      /\ NumberLiteral_String n = fmt.Sprintf_f (S754_zero false)
      /\ NumberLiteral_String n <> Literal token).
Proof.
  intros token n. split; [reflexivity|]. split; [reflexivity|].
  apply (NumberLiteral_String_invalid token (S754_infinity false)
           strconv.ErrRange); reflexivity.
Defined.


(** ** The decimal rendering of integers *)

(** Evaluates the codes of the literal bytes in the goal. *)
Ltac eval_bytes :=
  repeat match goal with
         | |- context [byte_code (Ascii ?a ?b ?c ?d ?e ?f ?g ?h)] =>
             let v := eval vm_compute in (byte_code (Ascii a b c d e f g h)) in
             change (byte_code (Ascii a b c d e f g h)) with v
         end.

Section Sprintf_d_facts.

Lemma all_digits_string_of_uint d :
  all_digits (NilEmpty.string_of_uint d) = true.
Proof. induction d; cbn [NilEmpty.string_of_uint all_digits]; auto. Qed.

Lemma digits_value_of_uint_acc d : forall acc,
  digits_value (NilEmpty.string_of_uint d) (Zpos acc)
  = Zpos (Pos.of_uint_acc d acc).
Proof.
  induction d; intros acc;
    cbn [NilEmpty.string_of_uint digits_value Pos.of_uint_acc];
    [reflexivity|..];
    rewrite <- IHd; f_equal; unfold digit_val; eval_bytes; lia.
Qed.

Lemma digits_value_of_uint d :
  digits_value (NilEmpty.string_of_uint d) 0 = Z.of_N (Pos.of_uint d).
Proof.
  induction d; cbn [NilEmpty.string_of_uint digits_value Pos.of_uint];
    [reflexivity | exact IHd | ..];
    apply (digits_value_of_uint_acc d).
Qed.

Lemma to_uint_nonnil n : N.to_uint n <> Decimal.Nil.
Proof.
  destruct n as [|p]; [discriminate|]. apply DecimalPos.Unsigned.to_uint_nonnil.
Qed.

Lemma decimal_eq n :
  fmt.decimal n = NilEmpty.string_of_uint (N.to_uint (Z.to_N n)).
Proof.
  unfold fmt.decimal, NilZero.string_of_uint.
  pose proof (to_uint_nonnil (Z.to_N n)).
  destruct (N.to_uint (Z.to_N n)); congruence.
Qed.

(** The decimal digits of a natural number denote it. *)
Lemma decimal_digits n : 0 <= n ->
  all_digits (fmt.decimal n) = true
  /\ digits_value (fmt.decimal n) 0 = n
  /\ fmt.decimal n <> "".
Proof.
  intros Hn. rewrite decimal_eq. split; [apply all_digits_string_of_uint|].
  split.
  - rewrite digits_value_of_uint.
    change (Pos.of_uint (N.to_uint (Z.to_N n)))
      with (N.of_uint (N.to_uint (Z.to_N n))).
    rewrite DecimalN.Unsigned.of_to. lia.
  - pose proof (to_uint_nonnil (Z.to_N n)).
    destruct (N.to_uint (Z.to_N n)); [congruence|..]; discriminate.
Qed.

Lemma split_sign_digits s :
  all_digits s = true -> split_sign s = (false, s).
Proof.
  destruct s as [|c s]; [reflexivity|]. cbn [all_digits split_sign].
  intros [Hc _]%andb_true_iff.
  destruct (Ascii.eqb_spec c "-") as [->|_]; [discriminate Hc|].
  destruct (Ascii.eqb_spec c "+") as [->|_]; [discriminate Hc|]. reflexivity.
Qed.

(** [Sprintf("%d", i)] is read back as [i]. *)
Lemma strict_base10_int64_Sprintf_d i :
  int64_min <= i <= int64_max ->
  strict_base10_int64 (fmt.Sprintf_d i) = Some i.
Proof.
  intros Hi. unfold fmt.Sprintf_d, strict_base10_int64.
  destruct (Z.ltb_spec i 0) as [Hneg|Hpos].
  - destruct (decimal_digits (- i) ltac:(lia)) as (Hd & Hv & Hne).
    change (split_sign ("-" +:+ fmt.decimal (- i)))
      with (true, fmt.decimal (- i)).
    destruct (fmt.decimal (- i)) as [|c s] eqn:E; [congruence|].
    rewrite Hd, Hv, Z.opp_involutive.
    destruct (Z.leb_spec int64_min i); [|lia].
    destruct (Z.leb_spec i int64_max); [|lia]. reflexivity.
  - destruct (decimal_digits i Hpos) as (Hd & Hv & Hne).
    rewrite (split_sign_digits _ Hd).
    destruct (fmt.decimal i) as [|c s] eqn:E; [congruence|].
    rewrite Hd, Hv.
    destruct (Z.leb_spec int64_min i); [|lia].
    destruct (Z.leb_spec i int64_max); [|lia]. reflexivity.
Qed.

End Sprintf_d_facts.

(** * Further properties of the number classifier and of the accessors *)

(** X1.  The fields of every node [NewNumberLiteral] builds are
    consistent: [Value] is the literal of the token; an integer node is
    valid; [Int] is zero unless the node is an integer and always lies in
    the range of [int64]; an invalid node has the float zero; and
    [IsValidNumber] is false exactly when the literal neither is a strict
    base-10 signed 64-bit integer nor is accepted by [ParseFloat]. *)
Theorem NewNumberLiteral_fields_consistent token :
  let n := NewNumberLiteral token in
  NumberLiteral_Value n = Literal token
  /\ (IsInt n = true -> IsValid n = true)
  /\ (IsInt n = false -> Int n = 0)
  /\ (IsValid n = false -> Float n = S754_zero false)
  /\ int64_min <= Int n <= int64_max
  /\ (IsValidNumber n = false <->
      strict_base10_int64 (Literal token) = None
      /\ exists f e, strconv.ParseFloat (Literal token) = (f, Some e)).
Proof.
  intros n. subst n.
  destruct (strconv.ParseInt (Literal token)) as [i [e|]] eqn:Hi.
  - assert (strict_base10_int64 (Literal token) = None) as Hs.
    { destruct (strict_base10_int64 (Literal token)) as [j|] eqn:Hj;
        [|reflexivity].
      apply ParseInt_strict in Hj. congruence. }
    destruct (strconv.ParseFloat (Literal token)) as [f [e'|]] eqn:Hf.
    + rewrite (NewNumberLiteral_invalid_branch token i e f e' Hi Hf).
      unfold IsValidNumber. cbn [NumberLiteral_Value IsInt IsValid Int Float].
      repeat split; try discriminate; try reflexivity; eauto.
    + rewrite (NewNumberLiteral_float_branch token i e f Hi Hf).
      unfold IsValidNumber. cbn [NumberLiteral_Value IsInt IsValid Int Float].
      repeat split; try discriminate; try reflexivity.
      intros (_ & f' & e' & Hf'). discriminate.
  - pose proof (proj1 (ParseInt_strict _ _) Hi) as Hs.
    pose proof (strict_base10_int64_range _ _ Hs) as [Hlo Hhi].
    rewrite (NewNumberLiteral_int_branch token i Hi).
    unfold IsValidNumber. cbn [NumberLiteral_Value IsInt IsValid Int Float].
    repeat split; try discriminate; try reflexivity; try assumption.
    intros [Hnone _]. congruence.
Qed.

(** X2.  [String] of an integer node is the decimal text of [Int], and it
    reads back: it is itself a strict base-10 signed 64-bit integer of the
    same value, and classifying a token that carries it gives the same
    [Int], [Float] and flags. *)
Theorem NumberLiteral_String_integer_reads_back token i :
  strict_base10_int64 (Literal token) = Some i ->
  let s := NumberLiteral_String (NewNumberLiteral token) in
  s = fmt.Sprintf_d i
  /\ strict_base10_int64 s = Some i
  /\ has_fraction_or_exponent s = false
  /\ (forall token', Literal token' = s ->
        let n' := NewNumberLiteral token' in
        Int n' = i /\ Float n' = Float (NewNumberLiteral token)
        /\ IsInt n' = true /\ IsValid n' = true
        /\ NumberLiteral_String n' = s).
Proof.
  intros Hs s. pose proof (strict_base10_int64_range _ _ Hs) as Hrange.
  assert (s = fmt.Sprintf_d i) as Heq.
  { subst s. apply ParseInt_strict in Hs.
    now rewrite (NewNumberLiteral_int_branch token i Hs). }
  pose proof (strict_base10_int64_Sprintf_d i Hrange) as Hback.
  rewrite <- Heq in Hback.
  split; [exact Heq|]. split; [exact Hback|].
  split; [eapply strict_base10_int64_no_fraction_or_exponent, Hback|].
  intros token' Hlit n'. subst n'.
  rewrite <- Hlit in Hback. apply ParseInt_strict in Hback, Hs.
  rewrite (NewNumberLiteral_int_branch token' i Hback).
  rewrite (NewNumberLiteral_int_branch token i Hs).
  cbn [Int Float IsInt IsValid]. repeat split.
  rewrite Heq. reflexivity.
Qed.

Lemma NumberLiteral_String_integer_reads_back_witness :
  strict_base10_int64 (Literal (number_token "+007")) = Some 7
  /\ let s := NumberLiteral_String (NewNumberLiteral (number_token "+007")) in
     s = fmt.Sprintf_d 7
     /\ strict_base10_int64 s = Some 7
     /\ has_fraction_or_exponent s = false
     /\ (forall token', Literal token' = s ->
           let n' := NewNumberLiteral token' in
           Int n' = 7
           /\ Float n' = Float (NewNumberLiteral (number_token "+007"))
           /\ IsInt n' = true /\ IsValid n' = true
           /\ NumberLiteral_String n' = s).
Proof.
  split; [reflexivity|].
  apply (NumberLiteral_String_integer_reads_back (number_token "+007") 7).
  reflexivity.
Defined.

(** X3.  A number node that is not an integer and whose float is smaller
    in magnitude than half a millionth is displayed as zero:
    [String] returns "0.000000", or "-0.000000" for a negative float. *)
Theorem NumberLiteral_String_below_half_millionth n s m e :
  IsInt n = false ->
  Float n = S754_finite s m e ->
  2 * Zpos m * 10 ^ 6 < 2 ^ (- e) ->
  NumberLiteral_String n = (if s then "-" else "") +:+ "0.000000".
Proof.
  intros Hint Hf Hsmall. unfold NumberLiteral_String. rewrite Hint, Hf.
  cbn [fmt.Sprintf_f].
  assert (fmt.round_micro m e = 0) as ->.
  { unfold fmt.round_micro. change (10 ^ 6) with 1000000 in *. destruct (Z.leb_spec 0 e) as [He|He].
    - destruct (Z.eq_dec e 0) as [->|Hne].
      + change (2 ^ (- 0)) with 1 in Hsmall. lia.
      + rewrite Z.pow_neg_r in Hsmall by lia. lia.
    - cbv zeta.
      assert (0 < 2 ^ (- e)) by (apply Z.pow_pos_nonneg; lia).
      rewrite Z.div_small, Z.mod_small by lia.
      destruct (Z.ltb_spec (2 * (Zpos m * 1000000)) (2 ^ (- e)));
        [reflexivity|lia]. }
  reflexivity.
Qed.

Lemma NumberLiteral_String_below_half_millionth_witness :
  let n := NewNumberLiteral (number_token "-4.9e-7") in
  IsInt n = false
  /\ Float n = S754_finite true 4627919153212252 (-73)
  /\ 2 * Zpos 4627919153212252 * 10 ^ 6 < 2 ^ (- (-73))
  /\ NumberLiteral_String n = "-0.000000".
Proof.
  intros n. split; [reflexivity|]. split; [reflexivity|].
  split; [reflexivity|].
  apply (NumberLiteral_String_below_half_millionth n true
           4627919153212252 (-73)); reflexivity.
Defined.

(** ** Floats that are not numbers *)

Section nonfinite_facts.










(** A literal that starts with a digit does not start like one of the
    words. *)
Lemma commonPrefix_digit c s p ps :
  is_digit c = true -> 97 <= byte_code p ->
  strconv.commonPrefixLenIgnoreCase (String c s) (String p ps) = 0.
Proof.
  intros Hc%is_digit_val Hp. cbn [strconv.commonPrefixLenIgnoreCase].
  unfold digit_val in Hc. change (byte_code "0") with 48 in Hc. eval_bytes.
  destruct ((65 <=? byte_code c) && (byte_code c <=? 90)) eqn:Hup; [lia|].
  destruct (Z.eqb_spec (byte_code c) (byte_code p)); [lia | reflexivity].
Qed.

Lemma special_inf_digit c s sign nsign :
  is_digit c = true -> strconv.special_inf (String c s) sign nsign = None.
Proof.
  intros Hc. unfold strconv.special_inf.
  change "infinity" with (String "i" "nfinity").
  rewrite (commonPrefix_digit c s "i" "nfinity" Hc) by (vm_compute; discriminate).
  reflexivity.
Qed.



End nonfinite_facts.



(** ** Integers too large for int64 *)

Section big_integer_facts.

Lemma is_digit_not_separator c :
  is_digit c = true ->
  Ascii.eqb c "_" = false /\ Ascii.eqb c "." = false
  /\ Ascii.eqb c "+" = false /\ Ascii.eqb c "-" = false
  /\ (lower c =? byte_code "x") = false
  /\ (lower c =? byte_code "e") = false.
Proof.
  intros Hc.
  destruct c as [[] [] [] [] [] [] [] []]; try discriminate Hc;
    repeat split; reflexivity.
Qed.

(** The digit loop of [readFloat] on digits: it reads them all, and the
    digits seen in full denote the same number as for [ParseInt]. *)
Lemma readFloat_digits_all_digits ds : forall i st,
  all_digits ds = true ->
  strconv.sawdot st = false ->
  (strconv.nd st = 0 -> strconv.mant_all st = 0) ->
  0 <= strconv.nd st ->
  exists st',
    strconv.readFloat_digits false ds i st
    = (EmptyString, i + Z.of_nat (String.length ds), st')
    /\ strconv.underscores st' = strconv.underscores st
    /\ strconv.sawdot st' = false
    /\ (ds <> EmptyString \/ strconv.sawdigits st = true ->
        strconv.sawdigits st' = true)
    /\ strconv.mant_all st' = digits_value ds (strconv.mant_all st).
Proof.
  induction ds as [|c ds IH]; intros i st Hd Hdot Hinv Hnd.
  - exists st. cbn [strconv.readFloat_digits String.length digits_value].
    split; [f_equal; f_equal; lia|]. split; [reflexivity|].
    split; [assumption|]. split; [intros [H|H]; congruence | reflexivity].
  - cbn [all_digits] in Hd. apply andb_true_iff in Hd as [Hc Hd].
    destruct (is_digit_not_separator c Hc) as (Hu & Hp & _).
    cbn [strconv.readFloat_digits]. rewrite Hu, Hp, Hc.
    cbn [String.length digits_value]. rewrite Nat2Z.inj_succ.
    replace (i + Z.succ (Z.of_nat (String.length ds)))
      with (i + 1 + Z.of_nat (String.length ds)) by lia.
    pose proof (is_digit_val c Hc) as Hv.
    destruct (Ascii.eqb c "0" && (strconv.nd st =? 0)) eqn:Hz.
    + apply andb_true_iff in Hz as [Hc0%Ascii.eqb_eq Hz%Z.eqb_eq]. subst c.
      match goal with
      | |- context [strconv.readFloat_digits false ds (i + 1) ?s1] =>
          destruct (IH (i + 1) s1 Hd Hdot Hinv Hnd)
            as (st' & Heq & Hus & Hsd & Hsaw & Hm)
      end.
      exists st'. rewrite Heq. split; [reflexivity|].
      split; [exact Hus|]. split; [exact Hsd|].
      split; [intros _; apply Hsaw; right; reflexivity|].
      rewrite Hm. cbn [strconv.mant_all]. rewrite (Hinv Hz). reflexivity.
    + match goal with
      | |- context [strconv.readFloat_digits false ds (i + 1) ?s1] =>
          destruct (IH (i + 1) s1 Hd Hdot) as (st' & Heq & Hus & Hsd & Hsaw & Hm)
      end.
      * cbn [strconv.push_digit strconv.nd]. lia.
      * cbn [strconv.push_digit strconv.nd]. lia.
      * exists st'. rewrite Heq. split; [reflexivity|].
        split; [exact Hus|]. split; [exact Hsd|].
        split; [intros _; apply Hsaw; right; reflexivity|].
        rewrite Hm. reflexivity.
Qed.

Lemma special_digit c s : is_digit c = true -> strconv.special (String c s) = None.
Proof.
  intros Hc. destruct (is_digit_not_separator c Hc) as (_ & _ & Hp & Hm & _).
  unfold strconv.special. rewrite Hp, Hm.
  rewrite (special_inf_digit c s false 0 Hc).
  change "nan" with (String "n" "an").
  rewrite (commonPrefix_digit c s "n" "an" Hc) by (vm_compute; discriminate).
  change (0 =? 3) with false. cbv iota.
  destruct (_ || _); [reflexivity|]. destruct (_ || _); reflexivity.
Qed.

(** [readFloat] after the sign, on digits only. *)
Lemma readFloat_after_sign_digits ds neg i1 s :
  ds <> EmptyString -> all_digits ds = true ->
  (let hex :=
     match ds with
     | String d0 (String d1 (String _ _)) =>
         Ascii.eqb d0 "0" && (lower d1 =? byte_code "x")
     | _ => false
     end in
   let s2 :=
     match ds with
     | String _ (String _ after) => if hex then after else ds
     | _ => ds
     end in
   let i2 := if hex then i1 + 2 else i1 in
   let '(s3, i3, st) := strconv.readFloat_digits hex s2 i2 strconv.digits_init in
   if negb (strconv.sawdigits st) then None
   else
     let dp1 := if strconv.sawdot st then strconv.dp st else strconv.nd st in
     let dp2 := if hex then dp1 * 4 else dp1 in
     let ndMant2 := if hex then strconv.ndMant st * 4 else strconv.ndMant st in
     match strconv.readFloat_exp hex s3 i3 (strconv.underscores st) with
     | None => None
     | Some (_, i4, e, us) =>
         let dp3 := dp2 + e in
         if us && negb (strconv.underscoreOK (substring 0 (Z.to_nat i4) s))
         then None
         else
           Some {| strconv.rf_mantissa := strconv.mantissa st;
                   strconv.rf_exp :=
                     if strconv.mantissa st =? 0 then 0 else dp3 - ndMant2;
                   strconv.rf_neg := neg; strconv.rf_trunc := strconv.trunc st;
                   strconv.rf_hex := hex;
                   strconv.rf_i := i4;
                   strconv.rf_digits := strconv.mant_all st;
                   strconv.rf_exp10 := dp1 + e - strconv.nd st |}
     end)
  = match (let '(s3, i3, st) :=
             strconv.readFloat_digits false ds i1 strconv.digits_init in
           Some (strconv.mantissa st, strconv.trunc st, strconv.nd st,
                 strconv.ndMant st)) with
    | Some (mant, tr, n, nm) =>
        Some {| strconv.rf_mantissa := mant;
                strconv.rf_exp := if mant =? 0 then 0 else n + 0 - nm;
                strconv.rf_neg := neg; strconv.rf_trunc := tr;
                strconv.rf_hex := false;
                strconv.rf_i := i1 + Z.of_nat (String.length ds);
                strconv.rf_digits := digits_value ds 0;
                strconv.rf_exp10 := 0 |}
    | None => None
    end.
Proof.
  intros Hne Hd.
  assert (match ds with
          | String d0 (String d1 (String _ _)) =>
              Ascii.eqb d0 "0" && (lower d1 =? byte_code "x")
          | _ => false
          end = false) as ->.
  { destruct ds as [|d0 [|d1 [|d2 r]]]; try reflexivity.
    cbn [all_digits] in Hd.
    apply andb_true_iff in Hd as [_ [Hd1 _]%andb_true_iff].
    destruct (is_digit_not_separator d1 Hd1) as (_ & _ & _ & _ & -> & _).
    apply andb_false_r. }
  cbv beta iota zeta.
  assert (match ds with
          | String _ (String _ _) => ds
          | _ => ds
          end = ds) as -> by (destruct ds as [|? [|? ?]]; reflexivity).
  destruct (readFloat_digits_all_digits ds i1 strconv.digits_init Hd
              eq_refl (fun _ => eq_refl) ltac:(cbn; lia))
    as (st & -> & Hus & Hdot & Hsaw & Hm).
  rewrite (Hsaw (or_introl Hne)), Hdot. cbn [negb].
  cbn [strconv.readFloat_exp]. rewrite Hus.
  cbn [strconv.underscores strconv.digits_init andb].
  rewrite Hm. cbn [strconv.mant_all strconv.digits_init].
  do 2 f_equal; lia.
Qed.

(** [ParseFloat] on an optional sign followed by digits. *)
Lemma ParseFloat_signed_digits s neg ds :
  split_sign s = (neg, ds) -> ds <> EmptyString -> all_digits ds = true ->
  strconv.ParseFloat s =
    let f := strconv.atof64_decimal (digits_value ds 0) 0 neg in
    (f, if strconv.is_infinity f then Some strconv.ErrRange else None).
Proof.
  intros Hsplit Hne Hd.
  assert (exists c0 rest0 i1,
            s = String c0 rest0
            /\ strconv.special s = None
            /\ neg = Ascii.eqb c0 "-"
            /\ ds = (if Ascii.eqb c0 "+" || Ascii.eqb c0 "-" then rest0 else s)
            /\ i1 = (if Ascii.eqb c0 "+" || Ascii.eqb c0 "-" then 1 else 0)
            /\ Z.of_nat (String.length s) = i1 + Z.of_nat (String.length ds))
    as (c0 & rest0 & i1 & -> & Hsp & -> & Hds & Hi1 & Hlen).
  { destruct s as [|c0 rest0]; [cbn in Hsplit; congruence|].
    exists c0, rest0. unfold split_sign in Hsplit. unfold strconv.special.
    destruct (Ascii.eqb_spec c0 "-") as [->|Hm].
    - injection Hsplit as <- <-. exists 1.
      destruct rest0 as [|c1 r]; [congruence|].
      cbn [all_digits] in Hd. apply andb_true_iff in Hd as [Hc1 _].
      change (Ascii.eqb "-" "+") with false. cbv iota.
      rewrite (special_inf_digit c1 r true 1 Hc1).
      repeat split. cbn [String.length]. lia.
    - destruct (Ascii.eqb_spec c0 "+") as [->|Hp].
      + injection Hsplit as <- <-. exists 1.
        destruct rest0 as [|c1 r]; [congruence|].
        cbn [all_digits] in Hd. apply andb_true_iff in Hd as [Hc1 _].
        rewrite (special_inf_digit c1 r false 1 Hc1).
        repeat split. cbn [String.length]. lia.
      + injection Hsplit as <- <-. exists 0.
        cbn [all_digits] in Hd. apply andb_true_iff in Hd as [Hc0 _].
        pose proof (special_digit c0 rest0 Hc0) as Hsp.
        unfold strconv.special in Hsp.
        destruct (Ascii.eqb_spec c0 "+"); [congruence|].
        destruct (Ascii.eqb_spec c0 "-"); [congruence|].
        rewrite Hsp. repeat split. }
  unfold strconv.ParseFloat, strconv.atof64. rewrite Hsp.
  pose proof (readFloat_after_sign_digits ds (Ascii.eqb c0 "-") i1
                (String c0 rest0) Hne Hd) as Hrf.
  assert (strconv.readFloat (String c0 rest0)
          = match (let '(s3, i3, st) :=
                     strconv.readFloat_digits false ds i1 strconv.digits_init in
                   Some (strconv.mantissa st, strconv.trunc st, strconv.nd st,
                         strconv.ndMant st)) with
            | Some (mant, tr, n, nm) =>
                Some {| strconv.rf_mantissa := mant;
                        strconv.rf_exp := if mant =? 0 then 0 else n + 0 - nm;
                        strconv.rf_neg := Ascii.eqb c0 "-"; strconv.rf_trunc := tr;
                        strconv.rf_hex := false;
                        strconv.rf_i := i1 + Z.of_nat (String.length ds);
                        strconv.rf_digits := digits_value ds 0;
                        strconv.rf_exp10 := 0 |}
            | None => None
            end) as ->.
  { clear Hlen Hsp. subst ds i1. exact Hrf. }
  clear Hrf.
  destruct (strconv.readFloat_digits false ds i1 strconv.digits_init)
    as [[s3 i3] st].
  cbn [strconv.rf_hex strconv.rf_digits strconv.rf_exp10 strconv.rf_neg
       strconv.rf_i].
  rewrite Hlen, Z.eqb_refl. cbn [negb andb]. reflexivity.
Qed.

(** Rounding a whole number below [2 ^ 953] to a float64: a whole number
    again, within half a unit in the last place. *)
Lemma binary_round_within s m :
  Zpos m < 2 ^ 953 ->
  exists w, float64_is_integer (binary_round 53 1024 s m 0) (cond_Zopp s w)
            = true
            /\ 2 ^ 53 * Z.abs (w - Zpos m) <= Zpos m.
Proof.
  intros Hm. pose proof (digits2_pos_spec m) as [Hlo Hhi].
  destruct (Z.le_gt_cases (Zpos (digits2_pos m)) 53) as [Hd|Hd].
  - assert (Zpos m < 2 ^ 53) as Hm'.
    { assert (2 ^ Zpos (digits2_pos m) <= 2 ^ 53)
        by (apply Z.pow_le_mono_r; lia). lia. }
    destruct (binary_round_small s m Hm') as (m' & e & -> & He & Hm'e).
    exists (Zpos m). split; [|rewrite Z.sub_diag; cbn [Z.abs]; lia].
    cbn [float64_is_integer]. destruct (Z.leb_spec 0 e).
    + replace e with 0 in * by lia. change (2 ^ (- 0)) with 1 in Hm'e.
      change (2 ^ 0) with 1. apply Z.eqb_eq. destruct s; cbn [cond_Zopp]; lia.
    + apply Z.eqb_eq. destruct s; cbn [cond_Zopp]; lia.
  - assert (exists k, Zpos (digits2_pos m) = 53 + Zpos k) as [k Hk].
    { destruct (Zpos (digits2_pos m) - 53) as [|k|k] eqn:E; try lia.
      exists k. lia. }
    assert (Zpos k <= 900) as Hk900.
    { destruct (Z.le_gt_cases (Zpos k) 900) as [|Hgt]; [assumption|].
      assert (2 ^ 953 <= 2 ^ (Zpos (digits2_pos m) - 1))
        by (apply Z.pow_le_mono_r; lia). lia. }
    destruct (binary_round_large s m k Hk Hk900)
      as (mz & ez & -> & Hez & Herr).
    exists (Zpos mz * 2 ^ ez). split.
    + now apply float64_is_integer_finite.
    + rewrite Hk in Hlo.
      replace (53 + Zpos k - 1) with (53 + (Zpos k - 1)) in Hlo by lia.
      rewrite Z.pow_add_r in Hlo by lia. nia.
Qed.

End big_integer_facts.

(** X5.  A literal made of an optional sign and decimal digits whose value
    does not fit in [int64] (and is below [2 ^ 953] in magnitude) is not
    rejected: [NewNumberLiteral] classifies it as a valid float, with
    [IsInt] false and [Int] zero, and the float is a whole number within
    [|value| / 2 ^ 53] of the value written. *)
Theorem NewNumberLiteral_integer_beyond_int64 token neg ds :
  split_sign (Literal token) = (neg, ds) ->
  ds <> EmptyString -> all_digits ds = true ->
  let v := digits_value ds 0 in
  let i := if neg then - v else v in
  ~ (int64_min <= i <= int64_max) -> v < 2 ^ 953 ->
  let n := NewNumberLiteral token in
  IsInt n = false /\ IsValid n = true /\ Int n = 0
  /\ exists w, float64_is_integer (Float n) w = true
               /\ 2 ^ 53 * Z.abs (w - i) <= Z.abs i.
Proof.
  intros Hsplit Hne Hd v i Hout Hv n.
  pose proof (digits_value_ge ds 0 ltac:(lia) Hd) as Hv0. fold v in Hv0.
  assert (strict_base10_int64 (Literal token) = None) as Hs.
  { unfold strict_base10_int64. rewrite Hsplit.
    destruct ds as [|c r]; [congruence|]. rewrite Hd. fold v. fold i.
    destruct (Z.leb_spec int64_min i); destruct (Z.leb_spec i int64_max);
      cbn [andb]; try reflexivity. lia. }
  destruct (strict_base10_int64_None _ Hs) as (u & e & Hi).
  pose proof (ParseFloat_signed_digits _ _ _ Hsplit Hne Hd) as Hf.
  fold v in Hf. cbv zeta in Hf.
  assert (0 < v) as Hvpos.
  { unfold int64_min, int64_max in Hout. rewrite two_63 in Hout.
    subst i. destruct neg; lia. }
  destruct v as [|m|m] eqn:Ev; try lia.
  destruct (binary_round_within neg m Hv) as (w & Hw & Hb).
  assert (strconv.atof64_decimal (Zpos m) 0 neg = binary_round 53 1024 neg m 0)
    as Hdec.
  { unfold strconv.atof64_decimal. change (0 <=? 0) with true. cbv iota.
    change (10 ^ 0) with 1. rewrite Z.mul_1_r.
    destruct neg; reflexivity. }
  rewrite Hdec in Hf.
  assert (strconv.is_infinity (binary_round 53 1024 neg m 0) = false) as Hfin.
  { destruct (binary_round 53 1024 neg m 0); try reflexivity; discriminate Hw. }
  rewrite Hfin in Hf. subst n.
  rewrite (NewNumberLiteral_float_branch token u e _ Hi Hf).
  cbn [IsInt IsValid Int Float]. repeat split.
  exists (cond_Zopp neg w). split; [exact Hw|].
  subst i. destruct neg; cbn [cond_Zopp].
  - replace (- w - - Zpos m) with (- (w - Zpos m)) by lia.
    rewrite !Z.abs_opp. cbn [Z.abs]. exact Hb.
  - cbn [Z.abs]. exact Hb.
Qed.

Lemma NewNumberLiteral_integer_beyond_int64_witness :
  let token := number_token "-9223372036854775809" in
  let n := NewNumberLiteral token in
  split_sign (Literal token) = (true, "9223372036854775809")
  /\ ~ (int64_min <= - 9223372036854775809 <= int64_max)
  /\ IsInt n = false /\ IsValid n = true /\ Int n = 0
  /\ exists w, float64_is_integer (Float n) w = true
               /\ 2 ^ 53 * Z.abs (w - - 9223372036854775809)
                  <= Z.abs (- 9223372036854775809).
Proof.
  intros token n. split; [reflexivity|].
  split; [vm_compute; intros [H _]; apply H; reflexivity|].
  apply (NewNumberLiteral_integer_beyond_int64 token true
           "9223372036854775809").
  - reflexivity.
  - discriminate.
  - reflexivity.
  - vm_compute. intros [H _]. apply H. reflexivity.
  - reflexivity.
Defined.

(** ** Objects with fewer than two pairs *)

(** X6.  [String] of an object without pairs is "{}", and [String] of an
    object with the single pair [key], [value] is [{key: r}] for [r] a
    [String] of the value: no separator is written, and the key is
    written as it is, without quotes. *)
Theorem Object_String_empty_and_single token key value :
  (forall s, Object_String (Build_Object token ∅) s <-> s = "{}")
  /\ (forall s,
        Object_String (Build_Object token {[ key := value ]}) s <->
        exists r, Value_String value r
                  /\ s = "{" +:+ key +:+ ": " +:+ r +:+ "}").
Proof.
  split; intros s; split.
  - intros H. inversion H as [o visited rendered Hp Hr]; subst.
    cbn [Pairs] in Hp. rewrite map_to_list_empty in Hp.
    apply Permutation_nil_r in Hp. subst visited.
    inversion Hr; subst. reflexivity.
  - intros ->.
    apply (String_Object (Build_Object token ∅) [] []); [|constructor].
    cbn [Pairs]. now rewrite map_to_list_empty.
  - intros H. inversion H as [o visited rendered Hp Hr]; subst.
    cbn [Pairs] in Hp. rewrite map_to_list_singleton in Hp.
    apply Permutation_singleton_r in Hp. subst visited.
    inversion Hr as [|kv r l l' Hv Hrest]; subst.
    inversion Hrest; subst. exists r. split; [exact Hv|].
    rewrite Object_String_in_order_join.
    change (zip ([(key, value)].*1) [r]) with [(key, r)].
    cbn [join_pairs]. now rewrite append_empty_r, !append_assoc.
  - intros (r & Hv & ->).
    replace ("{" +:+ key +:+ ": " +:+ r +:+ "}")
      with (Object_String_in_order (zip ([(key, value)].*1) [r])).
    + apply (String_Object (Build_Object token {[ key := value ]})
               [(key, value)] [r]).
      * cbn [Pairs]. now rewrite map_to_list_singleton.
      * repeat constructor. exact Hv.
    + rewrite Object_String_in_order_join.
      change (zip ([(key, value)].*1) [r]) with [(key, r)].
      cbn [join_pairs]. now rewrite append_empty_r, !append_assoc.
Qed.

(** ** Values whose String does not depend on an iteration order *)

Section order_free_facts.

Lemma Permutation_short {A} (l l' : list A) :
  (length l' <= 1)%nat -> l ≡ₚ l' -> l = l'.
Proof.
  intros Hlen Hp. destruct l' as [|x [|y l']]; cbn in Hlen; try lia.
  - now apply Permutation_nil_r in Hp.
  - now apply Permutation_singleton_r in Hp.
Qed.

Lemma order_free_entry (m : gmap string Value) k v :
  map_fold (fun _ v acc => order_free v && acc) true m = true ->
  (k, v) ∈ map_to_list m -> order_free v = true.
Proof.
  rewrite map_fold_foldr. induction (map_to_list m) as [|[k' v'] l IH].
  - intros _ H. inversion H.
  - cbn [foldr uncurry]. change (uncurry _ (k', v') ?x)
      with (order_free v' && x).
    intros [Hv Hl]%andb_true_iff [Heq|Hin]%elem_of_cons.
    + inversion Heq; subst. exact Hv.
    + now apply IH.
Qed.

Lemma Value_String_order_free_sized n : forall v s1 s2,
  (Value_size v < n)%nat -> order_free v = true ->
  Value_String v s1 -> Value_String v s2 -> s1 = s2.
Proof.
  induction n as [|n IH]; intros v s1 s2 Hsz Hof H1 H2; [lia|].
  destruct v as [[t m]|a|s|x|b|x];
    try (inversion H1; inversion H2; subst; reflexivity).
  inversion H1 as [o u1 Ho1| | | | |]; subst.
  inversion H2 as [o u2 Ho2| | | | |]; subst.
  inversion Ho1 as [o1 vis1 ren1 Hp1 Hr1]; subst.
  inversion Ho2 as [o2 vis2 ren2 Hp2 Hr2]; subst.
  cbn [Pairs] in Hp1, Hp2.
  cbn [order_free Object_order_free] in Hof.
  apply andb_true_iff in Hof as [Hsize Hall].
  apply Nat.leb_le in Hsize. rewrite <- length_map_to_list in Hsize.
  apply (Permutation_short _ _ Hsize) in Hp1, Hp2. subst vis1 vis2.
  f_equal. f_equal.
  assert (forall k v, (k, v) ∈ map_to_list m ->
            forall r1 r2, Value_String v r1 -> Value_String v r2 -> r1 = r2)
    as Hdet.
  { intros k v Hin r1 r2. apply IH.
    - pose proof (Value_size_entry m k v Hin). cbn in Hsz. lia.
    - eapply order_free_entry; eassumption. }
  clear - Hr1 Hr2 Hdet. revert ren2 Hr2.
  induction Hr1 as [|[k v] r1 l ren1 Hv1 Hrest IHr]; intros ren2 Hr2;
    inversion Hr2 as [|kv r2 l' ren2' Hv2 Hrest2]; subst; [reflexivity|].
  f_equal.
  - eapply (Hdet k v); [left | exact Hv1 | exact Hv2].
  - apply IHr; [|exact Hrest2].
    intros k' v' Hin. apply (Hdet k' v'). now right.
Qed.

End order_free_facts.

(** X7.  [String] depends on the order of a map iteration only through
    objects with two or more pairs: for a value in which no object has
    more than one pair (arrays and scalars included, whatever the arrays
    hold), every call of [String] returns the same string. *)
Theorem Value_String_order_free v s1 s2 :
  order_free v = true ->
  Value_String v s1 -> Value_String v s2 -> s1 = s2.
Proof.
  intros Hof. apply (Value_String_order_free_sized (S (Value_size v))); [lia|].
  exact Hof.
Qed.

Lemma Value_String_order_free_witness :
  let token := {| Kind := LBRACE; Literal := "{"; Position := 0 |} in
  let arr := ValArray (Build_Array token [ValNull {| Null_Token := token |}]) in
  let v := ValObject (Build_Object token {[ "a" := arr ]}) in
  order_free v = true
  /\ Value_String v "{a: []}"
  /\ forall s, Value_String v s -> s = "{a: []}".
Proof.
  intros token arr v.
  assert (Value_String v "{a: []}") as Hv.
  { constructor.
    change "{a: []}"
      with (Object_String_in_order (zip ([("a", arr)].*1) ["[]"])).
    apply (String_Object (Build_Object token {[ "a" := arr ]})
             [("a", arr)] ["[]"]).
    - cbn [Pairs]. now rewrite map_to_list_singleton.
    - repeat constructor. }
  assert (order_free v = true) as Hof by (vm_compute; reflexivity).
  split; [exact Hof|]. split; [exact Hv|].
  intros s Hs. apply (Value_String_order_free v s "{a: []}" Hof Hs Hv).
Defined.

(** ** Signs and zeros in front of the digits *)

Section signed_digits_facts.

(** The node built for an optional sign followed by digits, from the
    sign and the number the digits denote. *)
Lemma NewNumberLiteral_signed_digits token neg ds :
  split_sign (Literal token) = (neg, ds) ->
  ds <> EmptyString -> all_digits ds = true ->
  let v := digits_value ds 0 in
  let i := if neg then - v else v in
  let n := NewNumberLiteral token in
  (Int n, Float n, IsInt n, IsValid n) =
    if (int64_min <=? i) && (i <=? int64_max)
    then (i, float64_of_int64 i, true, true)
    else
      let f := strconv.atof64_decimal v 0 neg in
      if strconv.is_infinity f then (0, S754_zero false, false, false)
      else (0, f, false, true).
Proof.
  intros Hsplit Hne Hd v i n. subst n.
  assert (strict_base10_int64 (Literal token)
          = if (int64_min <=? i) && (i <=? int64_max) then Some i else None)
    as Hs.
  { unfold strict_base10_int64. rewrite Hsplit.
    destruct ds as [|c r]; [congruence|]. now rewrite Hd. }
  destruct ((int64_min <=? i) && (i <=? int64_max)).
  - apply ParseInt_strict in Hs.
    now rewrite (NewNumberLiteral_int_branch token i Hs).
  - destruct (strict_base10_int64_None _ Hs) as (u & e & Hi).
    pose proof (ParseFloat_signed_digits _ _ _ Hsplit Hne Hd) as Hf.
    fold v in Hf. cbv zeta in Hf |- *.
    destruct (strconv.is_infinity (strconv.atof64_decimal v 0 neg)).
    + now rewrite (NewNumberLiteral_invalid_branch token u e _ _ Hi Hf).
    + now rewrite (NewNumberLiteral_float_branch token u e _ Hi Hf).
Qed.

End signed_digits_facts.

(** X8.  A plus sign and zeros in front of the digits are accepted and
    ignored: for digits [ds], the literals [ds], ["+" ds] and ["0" ds] are
    classified alike, with the same [Int], [Float] and flags. *)
Theorem NewNumberLiteral_plus_and_leading_zero token token_plus token_zero ds :
  ds <> EmptyString -> all_digits ds = true ->
  Literal token = ds ->
  Literal token_plus = String "+" ds ->
  Literal token_zero = String "0" ds ->
  let n := NewNumberLiteral token in
  let same n' :=
    Int n' = Int n /\ Float n' = Float n
    /\ IsInt n' = IsInt n /\ IsValid n' = IsValid n in
  same (NewNumberLiteral token_plus) /\ same (NewNumberLiteral token_zero).
Proof.
  intros Hne Hd Ht Hp Hz n same.
  assert (split_sign (Literal token) = (false, ds)) as H1
    by (rewrite Ht; now apply split_sign_digits).
  assert (split_sign (Literal token_plus) = (false, ds)) as H2
    by (rewrite Hp; reflexivity).
  assert (all_digits (String "0" ds) = true) as Hd0
    by (cbn [all_digits]; now rewrite Hd).
  assert (split_sign (Literal token_zero) = (false, String "0" ds)) as H3
    by (rewrite Hz; now apply split_sign_digits).
  pose proof (NewNumberLiteral_signed_digits _ _ _ H1 Hne Hd) as E1.
  pose proof (NewNumberLiteral_signed_digits _ _ _ H2 Hne Hd) as E2.
  pose proof (NewNumberLiteral_signed_digits _ _ _ H3 ltac:(discriminate) Hd0)
    as E3.
  pose proof (eq_trans E2 (eq_sym E1)) as E12.
  pose proof (eq_trans E3 (eq_sym E1)) as E13.
  subst same n. cbv beta.
  injection E12 as -> -> -> ->. injection E13 as -> -> -> ->.
  repeat split.
Qed.

Lemma NewNumberLiteral_plus_and_leading_zero_witness :
  let n := NewNumberLiteral (number_token "12") in
  let same n' :=
    Int n' = Int n /\ Float n' = Float n
    /\ IsInt n' = IsInt n /\ IsValid n' = IsValid n in
  Int n = 12
  /\ same (NewNumberLiteral (number_token "+12"))
  /\ same (NewNumberLiteral (number_token "012")).
Proof.
  intros n same. split; [reflexivity|].
  apply (NewNumberLiteral_plus_and_leading_zero
           (number_token "12") (number_token "+12") (number_token "012") "12");
    try reflexivity. discriminate.
Defined.

(** ** The shape of the %f rendering *)

Section Sprintf_f_facts.

Lemma zeros_append k t :
  String.length (string_of_list_ascii (repeat "0"%char k) +:+ t)
  = (k + String.length t)%nat
  /\ all_digits (string_of_list_ascii (repeat "0"%char k) +:+ t)
     = all_digits t.
Proof.
  induction k as [|k [IHl IHd]]; [split; reflexivity|].
  cbn [repeat string_of_list_ascii]. rewrite append_cons.
  cbn [String.length all_digits]. rewrite IHl, IHd. split; reflexivity.
Qed.

Lemma digits_value_scale s : forall acc, 0 <= acc -> all_digits s = true ->
  acc * 10 ^ Z.of_nat (String.length s) <= digits_value s acc.
Proof.
  induction s as [|c s IH]; intros acc Hacc Hd;
    cbn [String.length digits_value].
  - change (10 ^ Z.of_nat 0) with 1. lia.
  - cbn [all_digits] in Hd. apply andb_true_iff in Hd as [Hc Hd].
    pose proof (is_digit_val c Hc).
    specialize (IH (acc * 10 + digit_val c) ltac:(lia) Hd).
    rewrite Nat2Z.inj_succ, Z.pow_succ_r by lia.
    assert (0 < 10 ^ Z.of_nat (String.length s))
      by (apply Z.pow_pos_nonneg; lia).
    nia.
Qed.

(** The digits written for a number do not start with a zero, unless the
    number is zero. *)
Lemma decimal_normal n :
  fmt.decimal n = "0"
  \/ exists c s, fmt.decimal n = String c s /\ 1 <= digit_val c.
Proof.
  rewrite decimal_eq. set (d := N.to_uint (Z.to_N n)).
  assert (d = Decimal.unorm d) as Hnorm.
  { subst d. rewrite <- DecimalN.Unsigned.to_of.
    now rewrite DecimalN.Unsigned.of_to. }
  unfold Decimal.unorm in Hnorm.
  pose proof (DecimalFacts.nzhead_nonzero d) as Hnz.
  destruct (Decimal.nzhead d) eqn:E.
  - left. now rewrite Hnorm.
  - exfalso. now apply (Hnz u).
  - right. rewrite Hnorm. eexists _, _. split; [reflexivity|]. vm_compute. discriminate.
  - right. rewrite Hnorm. eexists _, _. split; [reflexivity|]. vm_compute. discriminate.
  - right. rewrite Hnorm. eexists _, _. split; [reflexivity|]. vm_compute. discriminate.
  - right. rewrite Hnorm. eexists _, _. split; [reflexivity|]. vm_compute. discriminate.
  - right. rewrite Hnorm. eexists _, _. split; [reflexivity|]. vm_compute. discriminate.
  - right. rewrite Hnorm. eexists _, _. split; [reflexivity|]. vm_compute. discriminate.
  - right. rewrite Hnorm. eexists _, _. split; [reflexivity|]. vm_compute. discriminate.
  - right. rewrite Hnorm. eexists _, _. split; [reflexivity|]. vm_compute. discriminate.
  - right. rewrite Hnorm. eexists _, _. split; [reflexivity|]. vm_compute. discriminate.
Qed.

Lemma decimal_length n k :
  0 <= n < 10 ^ Z.of_nat (S k) -> (String.length (fmt.decimal n) <= S k)%nat.
Proof.
  intros Hn. destruct (decimal_digits n ltac:(lia)) as (Hd & Hv & _).
  destruct (decimal_normal n) as [->|(c & s & Heq & Hc)].
  - cbn. lia.
  - rewrite Heq in *. cbn [String.length digits_value all_digits] in *.
    apply andb_true_iff in Hd as [Hdc Hds].
    pose proof (digits_value_scale s (0 * 10 + digit_val c) ltac:(lia) Hds)
      as Hscale.
    rewrite Hv in Hscale.
    destruct (Nat.le_gt_cases (String.length s) k) as [|Hgt]; [lia|].
    assert (10 ^ Z.of_nat (S k) <= 10 ^ Z.of_nat (String.length s))
      by (apply Z.pow_le_mono_r; lia).
    nia.
Qed.

Lemma round_micro_nonneg m e : 0 <= fmt.round_micro m e.
Proof.
  unfold fmt.round_micro. change (10 ^ 6) with 1000000.
  destruct (Z.leb_spec 0 e) as [He|He].
  - assert (0 < 2 ^ e) by (apply Z.pow_pos_nonneg; lia). nia.
  - cbv zeta. assert (0 < 2 ^ (- e)) by (apply Z.pow_pos_nonneg; lia).
    assert (0 <= Zpos m * 1000000 / 2 ^ (- e)) by (apply Z.div_pos; lia).
    destruct (_ <? _); [assumption|].
    destruct (_ <? _); [lia|]. destruct (Z.even _); lia.
Qed.

End Sprintf_f_facts.

(** X9.  [String] of a node that is not an integer and whose float is a
    number has a fixed shape: an optional minus sign, one or more digits,
    a point, and exactly six digits. *)
Theorem NumberLiteral_String_float_shape n :
  IsInt n = false -> is_finite_float (Float n) = true ->
  exists sign ip fp,
    NumberLiteral_String n = sign +:+ ip +:+ "." +:+ fp
    /\ (sign = "" \/ sign = "-")
    /\ ip <> "" /\ all_digits ip = true
    /\ all_digits fp = true /\ String.length fp = 6%nat.
Proof.
  intros Hint Hfin. unfold NumberLiteral_String. rewrite Hint.
  destruct (Float n) as [s|s| |s m e]; try discriminate Hfin.
  - exists (if s then "-" else ""), "0", "000000". cbn [fmt.Sprintf_f].
    split; [destruct s; reflexivity|].
    split; [destruct s; auto|]. repeat split. discriminate.
  - cbn [fmt.Sprintf_f]. cbv zeta.
    pose proof (round_micro_nonneg m e) as Hr.
    set (r := fmt.round_micro m e) in *.
    change (10 ^ 6) with 1000000.
    assert (0 <= r / 1000000) as Hip by (apply Z.div_pos; lia).
    pose proof (Z.mod_pos_bound r 1000000 ltac:(lia)) as Hfp.
    destruct (decimal_digits (r / 1000000) Hip) as (Hd1 & _ & Hne).
    destruct (decimal_digits (r mod 1000000) ltac:(lia)) as (Hd2 & _ & _).
    pose proof (decimal_length (r mod 1000000) 5 ltac:(exact Hfp)) as Hlen.
    exists (if s then "-" else ""), (fmt.decimal (r / 1000000)),
      (fmt.pad_zeros 6 (fmt.decimal (r mod 1000000))).
    split; [reflexivity|]. split; [destruct s; auto|].
    split; [exact Hne|]. split; [exact Hd1|].
    unfold fmt.pad_zeros.
    destruct (zeros_append (6 - String.length (fmt.decimal (r mod 1000000)))
                (fmt.decimal (r mod 1000000))) as [Hl Hd].
    rewrite Hl, Hd. split; [exact Hd2 | lia].
Qed.

Lemma NumberLiteral_String_float_shape_witness :
  let n := NewNumberLiteral (number_token "-12.5e-1") in
  IsInt n = false /\ is_finite_float (Float n) = true
  /\ NumberLiteral_String n = "-1.250000"
  /\ exists sign ip fp,
       NumberLiteral_String n = sign +:+ ip +:+ "." +:+ fp
       /\ (sign = "" \/ sign = "-")
       /\ ip <> "" /\ all_digits ip = true
       /\ all_digits fp = true /\ String.length fp = 6%nat.
Proof.
  intros n. split; [reflexivity|]. split; [reflexivity|].
  split; [reflexivity|].
  apply (NumberLiteral_String_float_shape n); reflexivity.
Defined.

(** ** The bytes of a valid literal *)

Section numeric_bytes_facts.

Lemma read_refl s i : read s s i i.
Proof. exists EmptyString. repeat split. cbn [String.length]. lia. Qed.

Lemma read_step c s s' i i' :
  numeric_byte c = true -> read s s' (i + 1) i' -> read (String c s) s' i i'.
Proof.
  intros Hc (pre & -> & -> & Hpre). exists (String c pre).
  rewrite append_cons. cbn [String.length all_numeric_bytes].
  rewrite Hc, Hpre. repeat split. lia.
Qed.

Lemma read_trans s1 s2 s3 i1 i2 i3 :
  read s1 s2 i1 i2 -> read s2 s3 i2 i3 -> read s1 s3 i1 i3.
Proof.
  intros (p1 & -> & -> & H1). revert i1.
  induction p1 as [|c p1 IH]; intros i1 H2.
  - replace (i1 + Z.of_nat (String.length "")) with i1 in H2 by (cbn; lia).
    exact H2.
  - cbn [all_numeric_bytes] in H1. apply andb_true_iff in H1 as [Hc H1].
    rewrite append_cons. apply read_step; [exact Hc|].
    apply (IH H1). cbn [String.length] in H2.
    replace (i1 + 1 + Z.of_nat (String.length p1))
      with (i1 + Z.of_nat (S (String.length p1))) by lia.
    exact H2.
Qed.

Lemma length_append (a b : string) :
  String.length (a +:+ b) = (String.length a + String.length b)%nat.
Proof.
  induction a as [|c a IH]; [reflexivity|].
  rewrite append_cons. cbn [String.length]. now rewrite IH.
Qed.

Lemma numeric_byte_digit c : is_digit c = true -> numeric_byte c = true.
Proof. intros H. unfold numeric_byte. now rewrite H. Qed.

Lemma numeric_byte_letter c : is_lower_letter c = true -> numeric_byte c = true.
Proof. intros H. unfold numeric_byte. rewrite H. now rewrite orb_true_r. Qed.

Lemma numeric_byte_lower c p :
  lower c = byte_code p -> is_lower_letter p = true -> numeric_byte c = true.
Proof.
  intros Hl Hp. apply numeric_byte_letter. unfold is_lower_letter in *.
  rewrite Hl. pose proof (lower_ge p). eval_bytes.
  assert (lower p = byte_code p) as Hpp.
  { unfold lower in *. rewrite <- Hl. rewrite <- Z.lor_assoc. reflexivity. }
  rewrite Hpp in Hp. exact Hp.
Qed.

Lemma all_digits_numeric s : all_digits s = true -> all_numeric_bytes s = true.
Proof.
  induction s as [|c s IH]; [reflexivity|]. cbn [all_digits all_numeric_bytes].
  intros [Hc Hs]%andb_true_iff. now rewrite (numeric_byte_digit c Hc), IH.
Qed.

Lemma readFloat_digits_read hex s : forall i st s' i' st',
  strconv.readFloat_digits hex s i st = (s', i', st') -> read s s' i i'.
Proof.
  induction s as [|c s IH]; intros i st s' i' st' H;
    cbn [strconv.readFloat_digits] in H.
  - injection H as <- <- _. apply read_refl.
  - destruct (Ascii.eqb_spec c "_") as [->|_];
      [apply read_step; [reflexivity | eapply IH, H]|].
    destruct (Ascii.eqb_spec c ".") as [->|_].
    { destruct (strconv.sawdot st).
      - injection H as <- <- _. apply read_refl.
      - apply read_step; [reflexivity | eapply IH, H]. }
    destruct (is_digit c) eqn:Hc.
    { apply read_step; [now apply numeric_byte_digit|].
      destruct (_ && _); eapply IH, H. }
    destruct (hex && (byte_code "a" <=? lower c) && (lower c <=? byte_code "f"))
      eqn:Hx.
    + apply read_step; [|eapply IH, H].
      apply numeric_byte_letter. unfold is_lower_letter.
      apply andb_true_iff in Hx as [[_ H1]%andb_true_iff H2].
      revert H1 H2. eval_bytes. lia.
    + injection H as <- <- _. apply read_refl.
Qed.

Lemma readFloat_exp_digits_read s : forall i e us s' i' e' us',
  strconv.readFloat_exp_digits s i e us = (s', i', e', us') -> read s s' i i'.
Proof.
  induction s as [|c s IH]; intros i e us s' i' e' us' H;
    cbn [strconv.readFloat_exp_digits] in H.
  - injection H as <- <- _ _. apply read_refl.
  - destruct (Ascii.eqb_spec c "_") as [->|_];
      [apply read_step; [reflexivity | eapply IH, H]|].
    destruct (is_digit c) eqn:Hc.
    + apply read_step; [now apply numeric_byte_digit | eapply IH, H].
    + injection H as <- <- _ _. apply read_refl.
Qed.

Lemma readFloat_exp_read hex s i us s' i' e us' :
  strconv.readFloat_exp hex s i us = Some (s', i', e, us') -> read s s' i i'.
Proof.
  unfold strconv.readFloat_exp. destruct s as [|c rest].
  - destruct hex; [discriminate|]. intros [= <- <- _ _]. apply read_refl.
  - destruct (Z.eqb_spec (lower c) (if hex then byte_code "p" else byte_code "e"))
      as [Hexp|_].
    + assert (numeric_byte c = true) as Hc.
      { destruct hex; [apply (numeric_byte_lower c "p") |
                       apply (numeric_byte_lower c "e")];
          (exact Hexp || reflexivity). }
      destruct rest as [|c1 rest1]; [discriminate|].
      destruct (Ascii.eqb_spec c1 "+") as [->|Hp];
        [|destruct (Ascii.eqb_spec c1 "-") as [->|Hm]]; cbn [orb].
      * destruct rest1 as [|c2 r2]; [discriminate|].
        destruct (is_digit c2); [|discriminate].
        destruct (strconv.readFloat_exp_digits _ _ _ _) as [[[r i2] e2] u2] eqn:E.
        intros [= <- <- _ _]. apply read_step; [exact Hc|].
        apply read_step; [reflexivity|].
        replace (i + 1 + 1) with (i + 2) by lia.
        eapply readFloat_exp_digits_read, E.
      * destruct rest1 as [|c2 r2]; [discriminate|].
        destruct (is_digit c2); [|discriminate].
        destruct (strconv.readFloat_exp_digits _ _ _ _) as [[[r i2] e2] u2] eqn:E.
        intros [= <- <- _ _]. apply read_step; [exact Hc|].
        apply read_step; [reflexivity|].
        replace (i + 1 + 1) with (i + 2) by lia.
        eapply readFloat_exp_digits_read, E.
      * destruct (is_digit c1); [|discriminate].
        destruct (strconv.readFloat_exp_digits _ _ _ _) as [[[r i2] e2] u2] eqn:E.
        intros [= <- <- _ _]. apply read_step; [exact Hc|].
        eapply readFloat_exp_digits_read, E.
    + destruct hex; [discriminate|]. intros [= <- <- _ _]. apply read_refl.
Qed.

Lemma hex_prefix_read s1 i1 :
  let hex :=
    match s1 with
    | String d0 (String d1 (String _ _)) =>
        Ascii.eqb d0 "0" && (lower d1 =? byte_code "x")
    | _ => false
    end in
  read s1
    (match s1 with
     | String _ (String _ after) => if hex then after else s1
     | _ => s1
     end)
    i1 (if hex then i1 + 2 else i1).
Proof.
  destruct s1 as [|d0 [|d1 [|d2 r]]]; cbv zeta; try apply read_refl.
  destruct (Ascii.eqb_spec d0 "0") as [->|_]; [|apply read_refl].
  destruct (Z.eqb_spec (lower d1) (byte_code "x")) as [Hx|_];
    [|apply read_refl].
  cbn [andb]. apply read_step; [reflexivity|].
  apply read_step; [now apply (numeric_byte_lower d1 "x")|].
  replace (i1 + 1 + 1) with (i1 + 2) by lia. apply read_refl.
Qed.

Lemma readFloat_read s r :
  strconv.readFloat s = Some r -> exists s', read s s' 0 (strconv.rf_i r).
Proof.
  destruct s as [|c0 rest0]; [discriminate|].
  unfold strconv.readFloat. cbv zeta.
  set (s1 := if Ascii.eqb c0 "+" || Ascii.eqb c0 "-" then rest0
             else String c0 rest0).
  set (i1 := if Ascii.eqb c0 "+" || Ascii.eqb c0 "-" then 1 else 0).
  assert (read (String c0 rest0) s1 0 i1) as Hsign.
  { subst s1 i1. destruct (Ascii.eqb_spec c0 "+") as [->|_]; cbn [orb].
    - apply read_step; [reflexivity | apply read_refl].
    - destruct (Ascii.eqb_spec c0 "-") as [->|_].
      + apply read_step; [reflexivity | apply read_refl].
      + apply read_refl. }
  pose proof (hex_prefix_read s1 i1) as Hhex. cbv zeta in Hhex.
  set (hex := match s1 with
              | String d0 (String d1 (String _ _)) =>
                  Ascii.eqb d0 "0" && (lower d1 =? byte_code "x")
              | _ => false
              end) in *.
  set (s2 := match s1 with
             | String _ (String _ after) => if hex then after else s1
             | _ => s1
             end) in *.
  set (i2 := if hex then i1 + 2 else i1) in *.
  destruct (strconv.readFloat_digits hex s2 i2 strconv.digits_init)
    as [[s3 i3] st] eqn:Ed.
  apply readFloat_digits_read in Ed.
  destruct (negb (strconv.sawdigits st)); [discriminate|].
  destruct (strconv.readFloat_exp hex s3 i3 (strconv.underscores st))
    as [[[[s4 i4] e] us]|] eqn:Ee; [|discriminate].
  apply readFloat_exp_read in Ee.
  destruct (us && _); [discriminate|].
  intros [= <-]. cbn [strconv.rf_i]. exists s4.
  eapply read_trans; [exact Hsign|].
  eapply read_trans; [exact Hhex|].
  eapply read_trans; [exact Ed | exact Ee].
Qed.

(** A byte that is a lower-case letter once its case is folded is a
    letter. *)
Lemma folded_letter c :
  97 <= (if (byte_code "A" <=? byte_code c) && (byte_code c <=? byte_code "Z")
         then byte_code c + (byte_code "a" - byte_code "A")
         else byte_code c) <= 122 ->
  numeric_byte c = true.
Proof.
  destruct c as [[] [] [] [] [] [] [] []]; vm_compute; intros [H1 H2];
    try reflexivity; exfalso; (apply H1; reflexivity) || (apply H2; reflexivity).
Qed.

(** The bytes that [commonPrefixLenIgnoreCase] matches with a word in
    lower-case letters. *)
Lemma commonPrefix_read s : forall p i,
  lower_case_word p = true ->
  exists s', read s s' i (i + strconv.commonPrefixLenIgnoreCase s p).
Proof.
  induction s as [|c s IH]; intros p i Hp.
  - exists EmptyString. cbn [strconv.commonPrefixLenIgnoreCase].
    rewrite Z.add_0_r. apply read_refl.
  - destruct p as [|q p].
    + exists (String c s). cbn [strconv.commonPrefixLenIgnoreCase].
      rewrite Z.add_0_r. apply read_refl.
    + cbn [lower_case_word] in Hp.
      apply andb_true_iff in Hp as [[Hq1%Z.leb_le Hq2%Z.leb_le]%andb_true_iff Hp].
      cbn [strconv.commonPrefixLenIgnoreCase].
      pose proof (folded_letter c) as Hfold. cbv zeta.
      destruct (Z.eqb_spec
                  (if (byte_code "A" <=? byte_code c)
                      && (byte_code c <=? byte_code "Z")
                   then byte_code c + (byte_code "a" - byte_code "A")
                   else byte_code c) (byte_code q)) as [Heq|_].
      * rewrite Heq in Hfold. specialize (Hfold ltac:(lia)).
        destruct (IH p (i + 1) Hp) as [s' Hs'].
        exists s'. apply read_step; [exact Hfold|].
        replace (i + (1 + strconv.commonPrefixLenIgnoreCase s p))
          with (i + 1 + strconv.commonPrefixLenIgnoreCase s p) by lia.
        exact Hs'.
      * exists (String c s). rewrite Z.add_0_r. apply read_refl.
Qed.

(** Reading at least up to the length of the string reads it all. *)
Lemma read_whole s s' i k :
  read s s' i k -> i + Z.of_nat (String.length s) <= k ->
  all_numeric_bytes s = true.
Proof.
  intros (pre & -> & -> & Hpre) Hlen. rewrite length_append in Hlen.
  destruct s' as [|c s']; [now rewrite append_empty_r|].
  cbn [String.length] in Hlen. lia.
Qed.

Lemma special_inf_numeric s sign nsign f n :
  strconv.special_inf s sign nsign = Some (f, n) ->
  n = nsign + Z.of_nat (String.length s) ->
  all_numeric_bytes s = true.
Proof.
  unfold strconv.special_inf.
  destruct (commonPrefix_read s "infinity" 0 eq_refl) as [s' Hread].
  rewrite Z.add_0_l in Hread.
  set (n0 := strconv.commonPrefixLenIgnoreCase s "infinity") in *.
  destruct ((3 <? n0) && (n0 <? 8)) eqn:Hclip.
  - cbn [Z.eqb orb Pos.eqb]. intros [= _ <-] Hlen.
    apply (read_whole _ _ _ _ Hread). lia.
  - destruct ((n0 =? 3) || (n0 =? 8)); [|discriminate].
    intros [= _ <-] Hlen. apply (read_whole _ _ _ _ Hread). lia.
Qed.

Lemma special_numeric s f n :
  strconv.special s = Some (f, n) -> n = Z.of_nat (String.length s) ->
  all_numeric_bytes s = true.
Proof.
  destruct s as [|c rest]; [discriminate|]. unfold strconv.special.
  cbn [String.length]. rewrite Nat2Z.inj_succ.
  destruct (Ascii.eqb_spec c "+") as [->|_].
  { intros H Hn. cbn [all_numeric_bytes].
    rewrite (special_inf_numeric _ _ _ _ _ H) by lia. reflexivity. }
  destruct (Ascii.eqb_spec c "-") as [->|_].
  { intros H Hn. cbn [all_numeric_bytes].
    rewrite (special_inf_numeric _ _ _ _ _ H) by lia. reflexivity. }
  destruct (_ || _).
  { intros H Hn. apply (special_inf_numeric _ _ _ _ _ H).
    cbn [String.length]. lia. }
  destruct (_ || _); [|discriminate].
  destruct (commonPrefix_read (String c rest) "nan" 0 eq_refl) as [s' Hread].
  rewrite Z.add_0_l in Hread.
  destruct (Z.eqb_spec (strconv.commonPrefixLenIgnoreCase (String c rest) "nan") 3)
    as [Hk|_]; [|discriminate].
  intros [= _ <-] Hn. apply (read_whole _ _ _ _ Hread).
  cbn [String.length]. lia.
Qed.

End numeric_bytes_facts.

(** X10.  A valid node was written with the bytes of a number only: every
    byte of its literal is a digit, a letter, a sign, a point or an
    underscore.  A literal with a space, a comma, a quote or any other
    byte in it is not valid. *)
Theorem NewNumberLiteral_valid_numeric_bytes token :
  IsValid (NewNumberLiteral token) = true ->
  all_numeric_bytes (Literal token) = true.
Proof.
  intros Hvalid.
  destruct (strconv.ParseInt (Literal token)) as [i [e|]] eqn:Hi.
  - destruct (strconv.ParseFloat (Literal token)) as [f [e'|]] eqn:Hf.
    { rewrite (NewNumberLiteral_invalid_branch token i e f e' Hi Hf) in Hvalid.
      discriminate. }
    clear Hvalid Hi. unfold strconv.ParseFloat, strconv.atof64 in Hf.
    destruct (strconv.special (Literal token)) as [[val n]|] eqn:Hsp.
    + destruct (Z.eqb_spec n (Z.of_nat (String.length (Literal token))))
        as [Hn|_]; [|discriminate].
      eapply special_numeric; eassumption.
    + destruct (strconv.readFloat (Literal token)) as [r|] eqn:Hr.
      * destruct (readFloat_read _ _ Hr) as [s' Hread].
        destruct (Z.eqb_spec (strconv.rf_i r)
                    (Z.of_nat (String.length (Literal token)))) as [Hn|_].
        -- apply (read_whole _ _ _ _ Hread). lia.
        -- cbn [negb andb] in Hf. destruct (if strconv.is_infinity _ then _ else _) as [[]|];
             discriminate.
      * destruct (negb _); discriminate.
  - apply ParseInt_strict in Hi. unfold strict_base10_int64 in Hi.
    destruct (split_sign (Literal token)) as [neg ds] eqn:Hsplit.
    destruct ds as [|c ds]; [discriminate|].
    destruct (all_digits (String c ds)) eqn:Hd; [|discriminate].
    apply all_digits_numeric in Hd. unfold split_sign in Hsplit.
    destruct (Literal token) as [|c0 r0]; [discriminate|].
    destruct (Ascii.eqb_spec c0 "-") as [->|_].
    { injection Hsplit as _ ->.
      change (numeric_byte "-" && all_numeric_bytes (String c ds) = true).
      now rewrite Hd. }
    destruct (Ascii.eqb_spec c0 "+") as [->|_].
    { injection Hsplit as _ ->.
      change (numeric_byte "+" && all_numeric_bytes (String c ds) = true).
      now rewrite Hd. }
    inversion Hsplit; subst. exact Hd.
Qed.

Lemma NewNumberLiteral_valid_numeric_bytes_witness :
  IsValid (NewNumberLiteral (number_token "-1.5E+3")) = true
  /\ all_numeric_bytes (Literal (number_token "-1.5E+3")) = true
  /\ all_numeric_bytes "1 5" = false.
Proof.
  split; [reflexivity|]. split; [|reflexivity].
  apply (NewNumberLiteral_valid_numeric_bytes (number_token "-1.5E+3")).
  reflexivity.
Defined.

(** ** Examples *)

Example ParseInt_examples :
  strconv.ParseInt "42" = (42, None)
  /\ strconv.ParseInt "-9223372036854775808" = (-9223372036854775808, None)
  /\ strconv.ParseInt "+7" = (7, None)
  /\ strconv.ParseInt "9223372036854775808"
     = (9223372036854775807, Some strconv.ErrRange)
  /\ strconv.ParseInt "42.0" = (0, Some strconv.ErrSyntax)
  /\ strconv.ParseInt "" = (0, Some strconv.ErrSyntax).
Proof. repeat split. Qed.

(** Fractional and exponent forms: 0.1, 1e3, -2.5E-3, and the integer
    2^63, which is too large for [int64]. *)
Example NewNumberLiteral_float_examples :
  Float (NewNumberLiteral (number_token "0.1"))
    = S754_finite false 7205759403792794 (-56)
  /\ Float (NewNumberLiteral (number_token "1e3"))
     = S754_finite false 8796093022208000 (-43)
  /\ Float (NewNumberLiteral (number_token "-2.5E-3"))
     = S754_finite true 5764607523034235 (-61)
  /\ NewNumberLiteral (number_token "9223372036854775808")
     = {| NumberLiteral_Token := number_token "9223372036854775808";
          NumberLiteral_Value := "9223372036854775808";
          Float := S754_finite false 4503599627370496 11;
          Int := 0; IsInt := false; IsValid := true |}.
Proof. vm_compute. repeat split. Qed.

(** The ends of [int64]: the largest integer is rounded up to 2^63, the
    smallest is kept. *)
Example NewNumberLiteral_int64_ends :
  NewNumberLiteral (number_token "9223372036854775807")
    = {| NumberLiteral_Token := number_token "9223372036854775807";
         NumberLiteral_Value := "9223372036854775807";
         Float := S754_finite false 4503599627370496 11;
         Int := 9223372036854775807; IsInt := true; IsValid := true |}
  /\ NewNumberLiteral (number_token "-9223372036854775808")
     = {| NumberLiteral_Token := number_token "-9223372036854775808";
          NumberLiteral_Value := "-9223372036854775808";
          Float := S754_finite true 4503599627370496 11;
          Int := -9223372036854775808; IsInt := true; IsValid := true |}.
Proof. vm_compute. repeat split. Qed.

Example NumberLiteral_String_examples :
  NumberLiteral_String (NewNumberLiteral (number_token "42")) = "42"
  /\ NumberLiteral_String (NewNumberLiteral (number_token "-17")) = "-17"
  /\ NumberLiteral_String (NewNumberLiteral (number_token "42.0")) = "42.000000"
  /\ NumberLiteral_String (NewNumberLiteral (number_token "0.0078125"))
     = "0.007812"
  /\ NumberLiteral_String (NewNumberLiteral (number_token "-1e-10"))
     = "-0.000000"
  /\ NumberLiteral_String (NewNumberLiteral (number_token "1e400"))
     = "0.000000".
Proof. vm_compute. repeat split. Qed.

Example Object_String_in_order_example :
  Object_String_in_order [("a", "1"); ("b", "[]"); ("c", "null")]
  = "{a: 1, b: [], c: null}".
Proof. reflexivity. Qed.
